(** * libdshowcapture: device-filter and pin resolution (source/dshow-base.cpp)

    A shallow embedding of the selection logic of [dshow-base.cpp]: the
    device-filter resolver ([GetDeviceCallback], [GetDeviceFilter]), the pin
    predicates ([PinHasMajorType], [PinIsDirection], [PinIsCategory],
    [PinNameIs], [PinMatches]), the pin walkers ([GetFilterPin],
    [GetPinByName], [GetPinByMedium]), the medium extractor ([GetPinMedium])
    and the medium cross-reference resolver ([GetFilterByMedium]).

    The COM objects the code talks to are modelled by records holding the
    answers of the interface methods the code calls.  Out-parameters are
    passed in with their previous content and returned with their new
    content.  A function that can leave by a C++ exception or can call
    through a null pointer has an [outcome] for result.  Reference counting
    and the warning log are not modelled. *)

From Stdlib Require Import ZArith List Bool String Ascii Lia.
Import ListNotations.
Local Open Scope Z_scope.

(** ** Platform scalars *)

(** [HRESULT] is a signed 32-bit status code; negative values are failures. *)
Definition HRESULT := Z.

Definition S_OK : HRESULT := 0.
Definition S_FALSE : HRESULT := 1.
(** 0x80004002 and 0x80004003 read as signed 32-bit integers. *)
Definition E_NOINTERFACE : HRESULT := 0x80004002 - 2 ^ 32.
Definition E_POINTER : HRESULT := 0x80004003 - 2 ^ 32.

Definition FAILED (hr : HRESULT) : bool := hr <? 0.
Definition SUCCEEDED (hr : HRESULT) : bool := 0 <=? hr.

(** A GUID is sixteen bytes: [Data1] (32 bits), [Data2] and [Data3]
    (16 bits each) and [Data4] (eight bytes, kept here as one 64-bit number,
    first byte most significant). *)
Record GUID : Type := mkGUID {
  Data1 : Z;
  Data2 : Z;
  Data3 : Z;
  Data4 : Z
}.

Definition CLSID := GUID.
Definition IID := GUID.

(** [IsEqualGUID] (also the [==] of the source on GUIDs) compares all bytes. *)
Definition IsEqualGUID (a b : GUID) : bool :=
  (Data1 a =? Data1 b) && (Data2 a =? Data2 b) &&
  (Data3 a =? Data3 b) && (Data4 a =? Data4 b).

Definition GUID_NULL : GUID := mkGUID 0 0 0 0.
Definition KSMEDIUMSETID_Standard : GUID :=
  mkGUID 0x4747B320 0x62CE 0x11CF 0xA5D628DB04C10000.
Definition AMPROPSETID_Pin : GUID :=
  mkGUID 0x9b00f101 0x1567 0x11d1 0xb3f100aa003761c5.
Definition AMPROPERTY_PIN_CATEGORY : Z := 0.

(** A wide string is the sequence of its code units before the terminating
    zero; a [const wchar_t *] that may be null is an [option wstring]. *)
Definition wchar_t := Z.
Definition wstring := list wchar_t.

(** The [L"..."] literal prefix of the source. *)
Definition L (s : string) : wstring :=
  map (fun a => Z.of_N (N_of_ascii a)) (list_ascii_of_string s).

(** [wcscmp]: the sign of the first difference, the terminator being the
    smallest code unit. *)
Fixpoint wcscmp (a b : wstring) : Z :=
  match a, b with
  | [], [] => 0
  | [], _ :: _ => -1
  | _ :: _, [] => 1
  | x :: a', y :: b' =>
      if x =? y then wcscmp a' b' else if x <? y then -1 else 1
  end.

Inductive PIN_DIRECTION : Type := PINDIR_INPUT | PINDIR_OUTPUT.

Definition PIN_DIRECTION_eqb (a b : PIN_DIRECTION) : bool :=
  match a, b with
  | PINDIR_INPUT, PINDIR_INPUT => true
  | PINDIR_OUTPUT, PINDIR_OUTPUT => true
  | _, _ => false
  end.

(** How a call ends: it returns a value, or [std::length_error] leaves it
    (no caller in this file catches it), or it dereferences a null pointer,
    after which the behaviour of the program is undefined. *)
Inductive outcome (A : Type) : Type :=
| Returns (a : A)
| length_error
| null_dereference.

Arguments Returns {A} a.
Arguments length_error {A}.
Arguments null_dereference {A}.

(** ** Interfaces queried on a pin *)

(** Of [AM_MEDIA_TYPE] the code reads the major type only. *)
Record AM_MEDIA_TYPE : Type := mkMediaType {
  majortype : GUID
}.

(** [IAMStreamConfig]: the status of [GetNumberOfCapabilities] with the
    [count] and [size] it stores (two [int]s), and for each index the
    status of [GetStreamCaps] with the media type pointer it stores, [None]
    when it leaves the pointer of the caller null.  [size] dimensions the
    scratch buffer given to [GetStreamCaps]; the content of the buffer is
    not modelled. *)
Record IAMStreamConfig : Type := mkStreamConfig {
  GetNumberOfCapabilities : HRESULT * (Z * Z);
  GetStreamCaps : Z -> HRESULT * option AM_MEDIA_TYPE
}.

(** [IKsPropertySet::Get] for a property set and a property id: the status
    and the GUID stored in the caller's buffer. *)
Record IKsPropertySet : Type := mkPropertySet {
  Get : GUID -> Z -> HRESULT * GUID
}.

(** [REGPINMEDIUM]: a class id and two 32-bit numbers, twenty-four bytes
    without padding. *)
Record REGPINMEDIUM : Type := mkMedium {
  clsMedium : CLSID;
  dw1 : Z;
  dw2 : Z
}.

(** [IKsPin::KsQueryMediums]: the status and the entries that follow the
    [KSMULTIPLE_ITEM] header; [Count] of the header is their number. *)
Record IKsPin : Type := mkKsPin {
  KsQueryMediums : HRESULT * list REGPINMEDIUM
}.

(** Of [PIN_INFO] the code reads the name (and releases [pFilter]). *)
Record PIN_INFO : Type := mkPinInfo {
  dir : PIN_DIRECTION;
  achName : wstring
}.

(** A pin object.  An enumerator ([IEnumMediaTypes], [IEnumPins],
    [IEnumMoniker]) is the list of the items for which its [Next(1, ...)]
    returns [S_OK], in order; the first other return value ends the list.
    A [QueryInterface] that fails, yielding no interface, is [None]. *)
Record IPin : Type := mkPin {
  pin_this : Z;
  QueryInterface_IAMStreamConfig : option IAMStreamConfig;
  EnumMediaTypes : HRESULT * list AM_MEDIA_TYPE;
  QueryDirection : HRESULT * PIN_DIRECTION;
  QueryInterface_IKsPropertySet : option IKsPropertySet;
  QueryPinInfo : HRESULT * PIN_INFO;
  QueryInterface_IKsPin : option IKsPin
}.

Record IBaseFilter : Type := mkFilter {
  filter_this : Z;
  EnumPins : HRESULT * list IPin
}.

(** ** Device-filter resolver *)

Record DeviceFilterCallbackInfo : Type := mkInfo {
  info_filter : option IBaseFilter;
  info_name : option wstring;
  info_path : option wstring
}.

(** The visitor: the returned boolean is "continue", the record is [info]
    after the call. *)
Definition GetDeviceCallback (info : DeviceFilterCallbackInfo)
    (filter : option IBaseFilter) (name : wstring) (path : option wstring)
    : bool * DeviceFilterCallbackInfo :=
  let name_differs :=
    match info_name info with
    | Some iname => negb (wcscmp name iname =? 0)
    | None => false
    end in
  if name_differs then (true, info) else
  let info := mkInfo filter (info_name info) (info_path info) in
  (* continue if path does not match *)
  let path_differs :=
    match path, info_path info with
    | Some p, Some ipath => negb (wcscmp p ipath =? 0)
    | _, _ => true
    end in
  if path_differs then (true, info) else (false, info).

(** Modelled from the spec: a registered device as the device enumerator
    (dshow-enum.cpp, not in this file) presents it to the visitor: the
    instantiated filter, the friendly name and the device path, which the
    visitor allows to be null. *)
Record Device : Type := mkDevice {
  dev_filter : IBaseFilter;
  dev_name : wstring;
  dev_path : option wstring
}.

Section EnumDevices.
Context {A : Type}.
Variable callback :
  A -> option IBaseFilter -> wstring -> option wstring -> bool * A.

(** Modelled from the spec: the body of [EnumDevices] (dshow-enum.cpp) is
    not in this file.  The enumerator visits the candidates in order and
    stops early when the visitor answers "stop".  The result is the
    visitor's state and the candidates visited. *)
Fixpoint EnumDevices_visit (devs : list Device) (param : A)
    : A * list Device :=
  match devs with
  | [] => (param, [])
  | d :: rest =>
      let '(continue, param') :=
        callback param (Some (dev_filter d)) (dev_name d) (dev_path d) in
      if continue then
        let '(final, seen) := EnumDevices_visit rest param' in
        (final, d :: seen)
      else (param', [d])
  end.

(** Modelled from the spec: [EnumDevices] itself.  [registered type] is the
    list of devices of the class, or [None] when the enumeration cannot be
    set up, in which case [EnumDevices] returns [false] and visits
    nothing. *)
Definition EnumDevices (registered : GUID -> option (list Device))
    (type : GUID) (param : A) : bool * A :=
  match registered type with
  | None => (false, param)
  | Some devs => (true, fst (EnumDevices_visit devs param))
  end.

End EnumDevices.

(** [out] is the content of [*out] before the call; the result is the
    returned boolean and the content of [*out] afterwards. *)
Definition GetDeviceFilter (registered : GUID -> option (list Device))
    (type : IID) (name path : option wstring) (out : option IBaseFilter)
    : bool * option IBaseFilter :=
  let info := mkInfo None name path in
  let '(ok, info) := EnumDevices GetDeviceCallback registered type info in
  if negb ok then (false, out) else
  match info_filter info with
  | Some f => (true, Some f)
  | None => (false, out)
  end.

(** The candidates [GetDeviceFilter] visits (none when the enumeration
    cannot be set up). *)
Definition GetDeviceFilter_visited (registered : GUID -> option (list Device))
    (type : IID) (name path : option wstring) : list Device :=
  match registered type with
  | None => []
  | Some devs =>
      snd (EnumDevices_visit GetDeviceCallback devs (mkInfo None name path))
  end.

(** ** Pin predicates *)

(** The loop [for (i = 0; i < count; i++)] of [PinConfigHasMajorType], with
    [n] iterations left from index [i].  [mt] is a fresh null pointer in
    each iteration; after a call that succeeded [mt->majortype] is read,
    through a null pointer when the call stored none. *)
Fixpoint PinConfigHasMajorType_loop (config : IAMStreamConfig) (type : GUID)
    (n : nat) (i : Z) : outcome bool :=
  match n with
  | O => Returns false
  | S n' =>
      let '(hr, mt) := GetStreamCaps config i in
      if SUCCEEDED hr then
        match mt with
        | None => null_dereference
        | Some mt =>
            if IsEqualGUID (majortype mt) type then Returns true
            else PinConfigHasMajorType_loop config type n' (i + 1)
        end
      else PinConfigHasMajorType_loop config type n' (i + 1)
  end.

(** Checks to see if a pin's config caps have a specific media type.
    [caps.resize(size)] converts a negative [size] to an unsigned number
    beyond the largest vector and throws [std::length_error]; running out
    of memory for a buffer of non-negative size is not modelled. *)
Definition PinConfigHasMajorType (pin : IPin) (type : GUID) : outcome bool :=
  match QueryInterface_IAMStreamConfig pin with
  | None => Returns false
  | Some config =>
      let '(hr, (count, size)) := GetNumberOfCapabilities config in
      if FAILED hr then Returns false else
      if size <? 0 then length_error else
      PinConfigHasMajorType_loop config type (Z.to_nat count) 0
  end.

(** Checks to see if a pin has a certain major media type. *)
Definition PinHasMajorType (pin : IPin) (type : GUID) : outcome bool :=
  (* first, check the config caps. *)
  match PinConfigHasMajorType pin type with
  | Returns true => Returns true
  | Returns false =>
      (* then let's check the media type for the pin *)
      let '(hr, mediaEnum) := EnumMediaTypes pin in
      if FAILED hr then Returns false else
      match mediaEnum with
      | [] => Returns false
      | mt :: _ => Returns (IsEqualGUID (majortype mt) type)
      end
  | length_error => length_error
  | null_dereference => null_dereference
  end.

Definition PinIsDirection (pin : option IPin) (dir : PIN_DIRECTION) : bool :=
  match pin with
  | None => false
  | Some pin =>
      let '(hr, pinDir) := QueryDirection pin in
      SUCCEEDED hr && PIN_DIRECTION_eqb pinDir dir
  end.

(** [category] is the content of the referenced GUID before the call; the
    result is the status and its content afterwards. *)
Definition GetPinCategory (pin : option IPin) (category : GUID)
    : HRESULT * GUID :=
  match pin with
  | None => (E_POINTER, category)
  | Some pin =>
      match QueryInterface_IKsPropertySet pin with
      | None => (E_NOINTERFACE, category)
      | Some propertySet =>
          Get propertySet AMPROPSETID_Pin AMPROPERTY_PIN_CATEGORY
      end
  end.

(** The local [pinCategory] is not initialised in the source; it is read
    only after [GetPinCategory] succeeded, which happens only when
    [IKsPropertySet::Get] stored it.  Its initial content stands here as
    [GUID_NULL]. *)
Definition PinIsCategory (pin : option IPin) (category : GUID) : bool :=
  match pin with
  | None => false
  | Some _ =>
      let '(hr, pinCategory) := GetPinCategory pin GUID_NULL in
      (* if the pin has no category interface, chances are we created it *)
      if FAILED hr then hr =? E_NOINTERFACE
      else IsEqualGUID category pinCategory
  end.

Definition PinNameIs (pin : option IPin) (name : option wstring) : bool :=
  match pin with
  | None => false
  | Some pin =>
      match name with
      | None => true
      | Some name =>
          let '(hr, pinInfo) := QueryPinInfo pin in
          if FAILED hr then false
          else wcscmp name (achName pinInfo) =? 0
      end
  end.

Definition PinMatches (pin : IPin) (type category : GUID)
    (dir : PIN_DIRECTION) : outcome bool :=
  match PinHasMajorType pin type with
  | Returns hasType =>
      if negb hasType then Returns false else
      if negb (PinIsDirection (Some pin) dir) then Returns false else
      if negb (PinIsCategory (Some pin) category) then Returns false else
      Returns true
  | length_error => length_error
  | null_dereference => null_dereference
  end.

(** ** Medium extractor *)

(** [memset(&medium, 0, sizeof(medium))]. *)
Definition REGPINMEDIUM_zero : REGPINMEDIUM := mkMedium GUID_NULL 0 0.

(** [memcmp(&a, &b, sizeof(a)) == 0]: the twenty-four bytes are the three
    fields, so the comparison is field by field. *)
Definition REGPINMEDIUM_memcmp_eq (a b : REGPINMEDIUM) : bool :=
  IsEqualGUID (clsMedium a) (clsMedium b) &&
  (dw1 a =? dw1 b) && (dw2 a =? dw2 b).

(** The scan of [GetPinMedium] over the entries left, down to the [memset]
    that follows the loop. *)
Fixpoint GetPinMedium_loop (items : list REGPINMEDIUM)
    : bool * REGPINMEDIUM :=
  match items with
  | [] => (false, REGPINMEDIUM_zero)
  | curMed :: rest =>
      if negb (IsEqualGUID (clsMedium curMed) GUID_NULL) &&
         negb (IsEqualGUID (clsMedium curMed) KSMEDIUMSETID_Standard)
      then (true, curMed)
      else GetPinMedium_loop rest
  end.

(** [medium] is the content of the referenced medium before the call; the
    result is the returned boolean and its content afterwards. *)
Definition GetPinMedium (pin : option IPin) (medium : REGPINMEDIUM)
    : bool * REGPINMEDIUM :=
  let ksPin :=
    match pin with
    | None => None
    | Some pin => QueryInterface_IKsPin pin
    end in
  match ksPin with
  | None => (false, medium)
  | Some ksPin =>
      let '(hr, items) := KsQueryMediums ksPin in
      if FAILED hr then (false, medium) else GetPinMedium_loop items
  end.

(** ** Pin walkers

    In each walker [pin] is the content of [*pin] before the call; the
    result is the returned boolean and the content of [*pin] afterwards.
    [GetFilterPin] ends as the type check of the pin it is looking at ends
    when that check does not return. *)

Fixpoint GetFilterPin_loop (pinsEnum : list IPin) (type category : GUID)
    (dir : PIN_DIRECTION) (pin : option IPin)
    : outcome (bool * option IPin) :=
  match pinsEnum with
  | [] => Returns (false, pin)
  | curPin :: rest =>
      match PinMatches curPin type category dir with
      | Returns true => Returns (true, Some curPin)
      | Returns false => GetFilterPin_loop rest type category dir pin
      | length_error => length_error
      | null_dereference => null_dereference
      end
  end.

Definition GetFilterPin (filter : option IBaseFilter) (type category : GUID)
    (dir : PIN_DIRECTION) (pin : option IPin)
    : outcome (bool * option IPin) :=
  match filter with
  | None => Returns (false, pin)
  | Some filter =>
      let '(hr, pinsEnum) := EnumPins filter in
      if FAILED hr then Returns (false, pin)
      else GetFilterPin_loop pinsEnum type category dir pin
  end.

Fixpoint GetPinByName_loop (pinsEnum : list IPin) (dir : PIN_DIRECTION)
    (name : option wstring) (pin : option IPin) : bool * option IPin :=
  match pinsEnum with
  | [] => (false, pin)
  | curPin :: rest =>
      if PinIsDirection (Some curPin) dir && PinNameIs (Some curPin) name
      then (true, Some curPin)
      else GetPinByName_loop rest dir name pin
  end.

Definition GetPinByName (filter : option IBaseFilter) (dir : PIN_DIRECTION)
    (name : option wstring) (pin : option IPin) : bool * option IPin :=
  match filter with
  | None => (false, pin)
  | Some filter =>
      let '(hr, pinsEnum) := EnumPins filter in
      if FAILED hr then (false, pin)
      else GetPinByName_loop pinsEnum dir name pin
  end.

(** The local [curMedium] is not initialised in the source; it is compared
    only after [GetPinMedium] returned [true], having stored it.  Its
    initial content stands here as [REGPINMEDIUM_zero]. *)
Fixpoint GetPinByMedium_loop (pinsEnum : list IPin) (medium : REGPINMEDIUM)
    (pin : option IPin) : bool * option IPin :=
  match pinsEnum with
  | [] => (false, pin)
  | curPin :: rest =>
      let '(got, curMedium) := GetPinMedium (Some curPin) REGPINMEDIUM_zero in
      if got && REGPINMEDIUM_memcmp_eq medium curMedium
      then (true, Some curPin)
      else GetPinByMedium_loop rest medium pin
  end.

Definition GetPinByMedium (filter : option IBaseFilter)
    (medium : REGPINMEDIUM) (pin : option IPin) : bool * option IPin :=
  match filter with
  | None => (false, pin)
  | Some filter =>
      let '(hr, pinsEnum) := EnumPins filter in
      if FAILED hr then (false, pin)
      else GetPinByMedium_loop pinsEnum medium pin
  end.

(** ** Medium cross-reference resolver *)

(** [IMoniker::BindToObject] for [IID_IBaseFilter]: the status and the
    pointer stored. *)
Record IMoniker : Type := mkMoniker {
  BindToObject : HRESULT * option IBaseFilter
}.

(** [ICreateDevEnum::CreateClassEnumerator]: the status and the enumerator
    stored, as the monikers it yields.  The platform answers [S_FALSE] and
    stores a null enumerator for a class that is empty or unknown. *)
Record ICreateDevEnum : Type := mkCreateDevEnum {
  CreateClassEnumerator : CLSID -> HRESULT * option (list IMoniker)
}.

(** [filter] is the content of [*filter] before the call. *)
Definition GetFilterByMediumFromMoniker (moniker : IMoniker)
    (medium : REGPINMEDIUM) (filter : option IBaseFilter)
    : bool * option IBaseFilter :=
  let '(hr, curFilter) := BindToObject moniker in
  if SUCCEEDED hr then
    let '(found, pin) := GetPinByMedium curFilter medium None in
    if found then (true, curFilter) else (false, filter)
  else
    (* WarningHR: BindToObject failed *)
    (false, filter).

Fixpoint GetFilterByMedium_loop (enumMoniker : list IMoniker)
    (medium : REGPINMEDIUM) (filter : option IBaseFilter)
    : bool * option IBaseFilter :=
  match enumMoniker with
  | [] => (false, filter)
  | moniker :: rest =>
      let '(found, filter') :=
        GetFilterByMediumFromMoniker moniker medium filter in
      if found then (true, filter')
      else GetFilterByMedium_loop rest medium filter'
  end.

(** [CoCreateInstance_SystemDeviceEnum] is the status of the
    [CoCreateInstance] call with the device enumerator it stores.  The
    result is [None] when control reaches a call through a null interface
    pointer ([deviceEnum] or [enumMoniker]), where the behaviour of the
    program is undefined; otherwise the returned boolean and the content of
    [*filter] afterwards. *)
Definition GetFilterByMedium
    (CoCreateInstance_SystemDeviceEnum : HRESULT * option ICreateDevEnum)
    (id : CLSID) (medium : REGPINMEDIUM) (filter : option IBaseFilter)
    : option (bool * option IBaseFilter) :=
  let '(hr, deviceEnum) := CoCreateInstance_SystemDeviceEnum in
  if FAILED hr then Some (false, filter) else
  match deviceEnum with
  | None => None
  | Some deviceEnum =>
      let '(hr, enumMoniker) := CreateClassEnumerator deviceEnum id in
      if FAILED hr then Some (false, filter) else
      match enumMoniker with
      | None => None
      | Some enumMoniker =>
          Some (GetFilterByMedium_loop enumMoniker medium filter)
      end
  end.

(** A candidate matches both criteria when the path criterion is set and
    the candidate carries that name and that path. *)
Definition fully_matches (n : wstring) (path : option wstring) (d : Device)
    : Prop :=
  exists p, path = Some p /\ dev_name d = n /\ dev_path d = Some p.


(** A medium whose class id is one of the two sentinels. *)
Definition is_sentinel (m : REGPINMEDIUM) : Prop :=
  clsMedium m = GUID_NULL \/ clsMedium m = KSMEDIUMSETID_Standard.

(** The three structural predicates hold of a pin. *)
Definition satisfies_all (type category : GUID) (dir : PIN_DIRECTION)
    (pin : IPin) : Prop :=
  PinHasMajorType pin type = Returns true /\
  PinIsDirection (Some pin) dir = true /\
  PinIsCategory (Some pin) category = true.


(** Each fetch of a capability at an index in [from, to) that succeeds
    stores a media type, and that type satisfies [P]. *)
Definition fetches_store (config : IAMStreamConfig) (from to : Z)
    (P : AM_MEDIA_TYPE -> Prop) : Prop :=
  forall j,
    from <= j < to ->
    SUCCEEDED (fst (GetStreamCaps config j)) = true ->
    exists mt, snd (GetStreamCaps config j) = Some mt /\ P mt.

(** The medium query of a pin cannot be made: the pin is null, or lacks the
    kernel-streaming interface, or [KsQueryMediums] fails. *)
Definition medium_query_fails (pin : option IPin) : Prop :=
  pin = None \/
  (exists p, pin = Some p /\ QueryInterface_IKsPin p = None) \/
  (exists p ksPin,
      pin = Some p /\ QueryInterface_IKsPin p = Some ksPin /\
      FAILED (fst (KsQueryMediums ksPin)) = true).

(** The medium query of a pin succeeds and reports sentinels only. *)
Definition only_sentinels_reported (pin : option IPin) : Prop :=
  exists p ksPin,
    pin = Some p /\ QueryInterface_IKsPin p = Some ksPin /\
    SUCCEEDED (fst (KsQueryMediums ksPin)) = true /\
    forall x, In x (snd (KsQueryMediums ksPin)) -> is_sentinel x.

(** A filter handle is null, or its pin enumeration cannot be obtained. *)
Definition no_pin_enumeration (filter : option IBaseFilter) : Prop :=
  filter = None \/
  exists f, filter = Some f /\ FAILED (fst (EnumPins f)) = true.

(** The filter exposes a pin whose extracted medium is [medium]. *)
Definition exposes_medium (f : IBaseFilter) (medium : REGPINMEDIUM) : Prop :=
  SUCCEEDED (fst (EnumPins f)) = true /\
  exists p,
    In p (snd (EnumPins f)) /\
    GetPinMedium (Some p) REGPINMEDIUM_zero = (true, medium).

(** The moniker can be instantiated, as a filter exposing [medium]. *)
Definition candidate_matches (medium : REGPINMEDIUM) (moniker : IMoniker)
    : Prop :=
  exists f,
    SUCCEEDED (fst (BindToObject moniker)) = true /\
    snd (BindToObject moniker) = Some f /\
    exposes_medium f medium.

(** The direction query of the pin succeeds and reports [dir]. *)
Definition has_direction (dir : PIN_DIRECTION) (p : IPin) : Prop :=
  SUCCEEDED (fst (QueryDirection p)) = true /\ snd (QueryDirection p) = dir.

(** The name criterion is unset, or the name of the pin can be queried and
    is the requested one. *)
Definition has_name (name : option wstring) (p : IPin) : Prop :=
  match name with
  | None => True
  | Some n =>
      SUCCEEDED (fst (QueryPinInfo p)) = true /\
      achName (snd (QueryPinInfo p)) = n
  end.

(** The stream configuration of the pin can be queried, its buffer size is
    not negative, and a capability of major type [T] is fetched at an index
    below its count, every successful fetch before it having stored a media
    type. *)
Definition has_capability (pin : IPin) (T : GUID) : Prop :=
  exists config i mt,
    QueryInterface_IAMStreamConfig pin = Some config /\
    SUCCEEDED (fst (GetNumberOfCapabilities config)) = true /\
    0 <= snd (snd (GetNumberOfCapabilities config)) /\
    0 <= i < fst (snd (GetNumberOfCapabilities config)) /\
    SUCCEEDED (fst (GetStreamCaps config i)) = true /\
    snd (GetStreamCaps config i) = Some mt /\
    majortype mt = T /\
    fetches_store config 0 i (fun _ => True).

(** The capability check runs to its end without a capability of major
    type [T]: there is no stream configuration, or its capabilities cannot
    be counted, or its buffer size is not negative and every successful
    fetch below the count stores a media type of another major type. *)
Definition no_capability (pin : IPin) (T : GUID) : Prop :=
  QueryInterface_IAMStreamConfig pin = None \/
  exists config,
    QueryInterface_IAMStreamConfig pin = Some config /\
    (FAILED (fst (GetNumberOfCapabilities config)) = true \/
     (0 <= snd (snd (GetNumberOfCapabilities config)) /\
      fetches_store config 0 (fst (snd (GetNumberOfCapabilities config)))
        (fun mt => majortype mt <> T))).

(** The media types of the pin can be enumerated and the first one has
    major type [T]. *)
Definition offers_first (pin : IPin) (T : GUID) : Prop :=
  SUCCEEDED (fst (EnumMediaTypes pin)) = true /\
  exists mt rest,
    snd (EnumMediaTypes pin) = mt :: rest /\ majortype mt = T.

(** The path criterion is set and the candidate carries that path. *)
Definition path_matches (path : option wstring) (d : Device) : Prop :=
  exists p, path = Some p /\ dev_path d = Some p.

(** The medium query of the pin succeeds and [x] is the first reported
    entry that is no sentinel. *)
Definition first_real_medium (p : IPin) (x : REGPINMEDIUM) : Prop :=
  exists ksPin pre rest,
    QueryInterface_IKsPin p = Some ksPin /\
    SUCCEEDED (fst (KsQueryMediums ksPin)) = true /\
    snd (KsQueryMediums ksPin) = pre ++ x :: rest /\
    (forall y, In y pre -> is_sentinel y) /\
    ~ is_sentinel x.

(** ** Sample data *)

Definition MEDIATYPE_Video : GUID :=
  mkGUID 0x73646976 0x0000 0x0010 0x800000AA00389B71.
Definition MEDIATYPE_Audio : GUID :=
  mkGUID 0x73647561 0x0000 0x0010 0x800000AA00389B71.
Definition PIN_CATEGORY_CAPTURE : GUID :=
  mkGUID 0xfb6c4281 0x0353 0x11d1 0x905f0000c0cc16ba.
Definition PIN_CATEGORY_PREVIEW : GUID :=
  mkGUID 0xfb6c4282 0x0353 0x11d1 0x905f0000c0cc16ba.

(** A pin without stream configuration, property set or kernel-streaming
    interface, offering the media types [mts]. *)
Definition plain_pin (this : Z) (d : PIN_DIRECTION) (nm : wstring)
    (mts : list AM_MEDIA_TYPE) : IPin :=
  mkPin this None (S_OK, mts) (S_OK, d) None (S_OK, mkPinInfo d nm) None.

(** A stream configuration with a single capability, of video type. *)
Definition video_caps : IAMStreamConfig :=
  mkStreamConfig (S_OK, (1, 128))
    (fun i => if i =? 0 then (S_OK, Some (mkMediaType MEDIATYPE_Video))
              else (S_FALSE, None)).

(** An output pin able to deliver video and offering audio at present. *)
Definition video_capable_pin : IPin :=
  mkPin 0x1000 (Some video_caps) (S_OK, [mkMediaType MEDIATYPE_Audio])
    (S_OK, PINDIR_OUTPUT) None
    (S_OK, mkPinInfo PINDIR_OUTPUT (L "Capture")) None.

(** A capture pin that reports its category. *)
Definition capture_pin : IPin :=
  mkPin 0x2000 None (S_OK, [mkMediaType MEDIATYPE_Video])
    (S_OK, PINDIR_OUTPUT)
    (Some (mkPropertySet (fun _ _ => (S_OK, PIN_CATEGORY_CAPTURE))))
    (S_OK, mkPinInfo PINDIR_OUTPUT (L "Capture")) None.

Definition CLSID_VideoInputDeviceCategory : GUID :=
  mkGUID 0x860BB310 0x5D01 0x11d0 0xBD3B00A0C911CE86.

Definition filterA : IBaseFilter := mkFilter 0xA000 (S_OK, []).
Definition filterB : IBaseFilter := mkFilter 0xB000 (S_OK, []).

Definition cam1A : Device := mkDevice filterA (L "Cam1") (Some (L "A")).
Definition cam1B : Device := mkDevice filterB (L "Cam1") (Some (L "B")).

(** Two cameras of the same name registered in the video-input class, no
    device in any other class. *)
Definition two_cameras (type : GUID) : option (list Device) :=
  if IsEqualGUID type CLSID_VideoInputDeviceCategory
  then Some [cam1A; cam1B] else Some [].

Definition medium_null : REGPINMEDIUM := mkMedium GUID_NULL 0 0.
Definition medium_standard : REGPINMEDIUM :=
  mkMedium KSMEDIUMSETID_Standard 0 0.
(** The medium of some capture hardware. *)
Definition medium_tuner : REGPINMEDIUM :=
  mkMedium (mkGUID 0x2721AE20 0x7E70 0x11D0 0xA5D628DB04C10000) 7 0.

(** A pin reporting the mediums [ms]. *)
Definition medium_pin (this : Z) (ms : list REGPINMEDIUM) : IPin :=
  mkPin this None (S_OK, []) (S_OK, PINDIR_INPUT) None
    (S_OK, mkPinInfo PINDIR_INPUT (L "Analog In"))
    (Some (mkKsPin (S_OK, ms))).

Definition tuner_pin : IPin :=
  medium_pin 0x3000 [medium_null; medium_standard; medium_tuner].
Definition sentinel_pin : IPin :=
  medium_pin 0x4000 [medium_standard; medium_null].

(** A filter whose pins are all inputs, the second one carrying video. *)
Definition inputs_only_filter : IBaseFilter :=
  mkFilter 0xC000
    (S_OK, [plain_pin 0xC001 PINDIR_INPUT (L "Audio In")
              [mkMediaType MEDIATYPE_Audio];
            plain_pin 0xC002 PINDIR_INPUT (L "Video In")
              [mkMediaType MEDIATYPE_Video]]).

(** A filter with a video input, then two video outputs. *)
Definition video_filter : IBaseFilter :=
  mkFilter 0xD000
    (S_OK, [plain_pin 0xD001 PINDIR_INPUT (L "Video In")
              [mkMediaType MEDIATYPE_Video];
            plain_pin 0xD002 PINDIR_OUTPUT (L "Capture")
              [mkMediaType MEDIATYPE_Video];
            plain_pin 0xD003 PINDIR_OUTPUT (L "Preview")
              [mkMediaType MEDIATYPE_Video]]).

(** 0x80004005 read as a signed 32-bit integer. *)
Definition E_FAIL : HRESULT := 0x80004005 - 2 ^ 32.

(** A filter whose pins cannot be enumerated. *)
Definition broken_filter : IBaseFilter := mkFilter 0xE000 (E_FAIL, []).

Definition CLSID_AudioInputDeviceCategory : GUID :=
  mkGUID 0x33D9A762 0x90C8 0x11d0 0xBD4300A0C911CE86.

(** A crossbar filter with a pin bound to [medium_tuner], and an audio
    filter whose only pin reports sentinels. *)
Definition crossbar_filter : IBaseFilter :=
  mkFilter 0xF000 (S_OK, [sentinel_pin; tuner_pin]).
Definition unlinked_filter : IBaseFilter :=
  mkFilter 0xF100 (S_OK, [sentinel_pin]).

Definition failing_moniker : IMoniker := mkMoniker (E_FAIL, None).
Definition unlinked_moniker : IMoniker :=
  mkMoniker (S_OK, Some unlinked_filter).
Definition crossbar_moniker : IMoniker :=
  mkMoniker (S_OK, Some crossbar_filter).

(** A device enumerator with three monikers in the audio-input class and
    no other class. *)
Definition sample_deviceEnum : ICreateDevEnum :=
  mkCreateDevEnum
    (fun id =>
       if IsEqualGUID id CLSID_AudioInputDeviceCategory
       then (S_OK, Some [failing_moniker; unlinked_moniker; crossbar_moniker])
       else (S_FALSE, None)).

(** A pin whose name cannot be queried. *)
Definition nameless_output_pin : IPin :=
  mkPin 0x5000 None (S_OK, [mkMediaType MEDIATYPE_Video])
    (S_OK, PINDIR_OUTPUT) None
    (E_FAIL, mkPinInfo PINDIR_INPUT []) None.

(** A filter with an input pin, the pin above and a named output. *)
Definition nameless_filter : IBaseFilter :=
  mkFilter 0x5100
    (S_OK, [plain_pin 0x5101 PINDIR_INPUT (L "In") [];
            nameless_output_pin;
            plain_pin 0x5102 PINDIR_OUTPUT (L "Capture") []]).

(** The medium of some audio hardware. *)
Definition medium_audio : REGPINMEDIUM :=
  mkMedium (mkGUID 0x6994AD04 0x93EF 0x11D0 0xA3CC00A0C9223196) 3 0.

(** A pin linked to the tuner first and to the audio hardware second, and a
    filter with that pin only. *)
Definition two_medium_pin : IPin :=
  medium_pin 0x6000 [medium_standard; medium_tuner; medium_audio].
Definition two_medium_filter : IBaseFilter :=
  mkFilter 0x6100 (S_OK, [two_medium_pin]).

(** An output pin without stream configuration that offers audio first and
    video second. *)
Definition audio_then_video_pin : IPin :=
  plain_pin 0x7000 PINDIR_OUTPUT (L "Out")
    [mkMediaType MEDIATYPE_Audio; mkMediaType MEDIATYPE_Video].

(** 0x80070490 read as a signed 32-bit integer: the property is not
    supported by the property set. *)
Definition E_PROP_ID_UNSUPPORTED : HRESULT := 0x80070490 - 2 ^ 32.

(** A video output pin with a property set that does not know the category
    property. *)
Definition uncategorised_pin : IPin :=
  mkPin 0x8000 None (S_OK, [mkMediaType MEDIATYPE_Video])
    (S_OK, PINDIR_OUTPUT)
    (Some (mkPropertySet (fun _ _ => (E_PROP_ID_UNSUPPORTED, GUID_NULL))))
    (S_OK, mkPinInfo PINDIR_OUTPUT (L "Capture")) None.

(** A third camera, of another name, registered after the two others. *)
Definition filterC : IBaseFilter := mkFilter 0xC100 (S_OK, []).
Definition cam2C : Device := mkDevice filterC (L "Cam2") (Some (L "C")).
Definition three_cameras (type : GUID) : option (list Device) :=
  if IsEqualGUID type CLSID_VideoInputDeviceCategory
  then Some [cam1A; cam1B; cam2C] else Some [].

(** * Properties *)

(** ** Comparisons *)

Lemma wcscmp_refl : forall a, wcscmp a a = 0.
Proof.
  induction a as [|x a IH]; simpl; [reflexivity|].
  now rewrite Z.eqb_refl.
Qed.

Lemma wcscmp_zero_eq : forall a b, wcscmp a b = 0 -> a = b.
Proof.
  induction a as [|x a IH]; destruct b as [|y b]; simpl; intros H;
    try reflexivity; try discriminate.
  destruct (Z.eqb_spec x y) as [->|_].
  - f_equal. now apply IH.
  - destruct (x <? y); discriminate.
Qed.

Lemma wcscmp_eqb_true : forall a b, (wcscmp a b =? 0) = true <-> a = b.
Proof.
  intros a b. rewrite Z.eqb_eq. split.
  - apply wcscmp_zero_eq.
  - intros ->. apply wcscmp_refl.
Qed.

Lemma wcscmp_eqb_false : forall a b, (wcscmp a b =? 0) = false <-> a <> b.
Proof.
  intros a b. rewrite <- wcscmp_eqb_true.
  destruct (wcscmp a b =? 0); split; congruence.
Qed.

Lemma IsEqualGUID_true : forall a b, IsEqualGUID a b = true <-> a = b.
Proof.
  intros [a1 a2 a3 a4] [b1 b2 b3 b4]. unfold IsEqualGUID. simpl.
  rewrite !andb_true_iff, !Z.eqb_eq. split.
  - intros [[[-> ->] ->] ->]. reflexivity.
  - intros H. injection H as -> -> -> ->. auto.
Qed.

Lemma IsEqualGUID_false : forall a b, IsEqualGUID a b = false <-> a <> b.
Proof.
  intros a b. rewrite <- IsEqualGUID_true.
  destruct (IsEqualGUID a b); split; congruence.
Qed.

Lemma IsEqualGUID_refl : forall a, IsEqualGUID a a = true.
Proof. intros a. now apply IsEqualGUID_true. Qed.

Lemma REGPINMEDIUM_memcmp_eq_true :
  forall a b, REGPINMEDIUM_memcmp_eq a b = true <-> a = b.
Proof.
  intros [ac a1 a2] [bc b1 b2]. unfold REGPINMEDIUM_memcmp_eq. simpl.
  rewrite !andb_true_iff, !Z.eqb_eq, IsEqualGUID_true. split.
  - intros [[-> ->] ->]. reflexivity.
  - intros H. injection H as -> -> ->. auto.
Qed.

Lemma FAILED_SUCCEEDED : forall hr, FAILED hr = negb (SUCCEEDED hr).
Proof.
  intros hr. unfold FAILED, SUCCEEDED.
  destruct (Z.ltb_spec hr 0), (Z.leb_spec 0 hr); simpl; try reflexivity; lia.
Qed.

(** ** The visitor of the device-filter resolver *)

Section DeviceCallback.
Variable n : wstring.
Variable path : option wstring.

(** A candidate whose name differs from the criterion leaves [info] alone. *)
Lemma GetDeviceCallback_skip :
  forall f0 f name pth,
    name <> n ->
    GetDeviceCallback (mkInfo f0 (Some n) path) f name pth =
      (true, mkInfo f0 (Some n) path).
Proof.
  intros f0 f name pth Hne. unfold GetDeviceCallback. simpl.
  apply wcscmp_eqb_false in Hne. now rewrite Hne.
Qed.

(** A candidate that matches the name only is recorded, the visit goes on. *)
Lemma GetDeviceCallback_name_only :
  forall f0 f pth,
    (forall p, path = Some p -> pth <> Some p) ->
    GetDeviceCallback (mkInfo f0 (Some n) path) f n pth =
      (true, mkInfo f (Some n) path).
Proof.
  intros f0 f pth Hp. unfold GetDeviceCallback. simpl.
  rewrite wcscmp_refl. simpl.
  destruct pth as [p|]; [|reflexivity].
  destruct path as [ip|]; [|reflexivity].
  destruct (Z.eqb_spec (wcscmp p ip) 0) as [E|_]; [|reflexivity].
  apply wcscmp_zero_eq in E. subst. now destruct (Hp ip eq_refl).
Qed.

(** A candidate that matches name and path is recorded and ends the visit. *)
Lemma GetDeviceCallback_full :
  forall f0 f p,
    path = Some p ->
    GetDeviceCallback (mkInfo f0 (Some n) path) f n (Some p) =
      (false, mkInfo f (Some n) path).
Proof.
  intros f0 f p ->. unfold GetDeviceCallback. simpl.
  now rewrite !wcscmp_refl.
Qed.

Lemma name_dec : forall d : Device, {dev_name d = n} + {dev_name d <> n}.
Proof. intros d. apply (list_eq_dec Z.eq_dec). Qed.

(** Over candidates none of which matches both criteria the visit runs to
    the end, whatever follows them. *)
Lemma EnumDevices_visit_app :
  forall pre rest f0,
    (forall x, In x pre -> ~ fully_matches n path x) ->
    exists f1,
      EnumDevices_visit GetDeviceCallback (pre ++ rest)
        (mkInfo f0 (Some n) path) =
      (fst (EnumDevices_visit GetDeviceCallback rest (mkInfo f1 (Some n) path)),
       pre ++
       snd (EnumDevices_visit GetDeviceCallback rest (mkInfo f1 (Some n) path))).
Proof.
  induction pre as [|d pre IH]; intros rest f0 Hpre.
  - exists f0. simpl. now destruct (EnumDevices_visit _ rest _).
  - assert (Hrest : forall x, In x pre -> ~ fully_matches n path x)
      by (intros x Hx; apply Hpre; now right).
    simpl. destruct (name_dec d) as [En|Ne].
    + rewrite En, GetDeviceCallback_name_only.
      * destruct (IH rest (Some (dev_filter d)) Hrest) as [f1 ->].
        now exists f1.
      * intros p Hp Hd. apply (Hpre d (or_introl eq_refl)).
        exists p. auto.
    + rewrite GetDeviceCallback_skip by assumption.
      destruct (IH rest f0 Hrest) as [f1 ->]. now exists f1.
Qed.

(** Over candidates none of which matches the name nothing is recorded. *)
Lemma EnumDevices_visit_unnamed :
  forall devs f0,
    (forall x, In x devs -> dev_name x <> n) ->
    EnumDevices_visit GetDeviceCallback devs (mkInfo f0 (Some n) path) =
      (mkInfo f0 (Some n) path, devs).
Proof.
  induction devs as [|d devs IH]; intros f0 H; [reflexivity|].
  simpl. rewrite GetDeviceCallback_skip by (apply H; now left).
  rewrite IH by (intros x Hx; apply H; now right). reflexivity.
Qed.

(** When nothing is recorded at the end, nothing was recorded before and no
    candidate matched the name. *)
Lemma EnumDevices_visit_nothing :
  forall devs f0,
    info_filter
      (fst (EnumDevices_visit GetDeviceCallback devs
              (mkInfo f0 (Some n) path))) = None ->
    f0 = None /\ forall x, In x devs -> dev_name x <> n.
Proof.
  induction devs as [|d devs IH]; intros f0 H.
  - simpl in H. split; [assumption | intros x []].
  - simpl in H. destruct (name_dec d) as [En|Ne].
    + exfalso. rewrite En in H.
      unfold GetDeviceCallback in H. simpl in H.
      rewrite wcscmp_refl in H. simpl in H.
      match type of H with
      | context [if ?c then _ else _] => destruct c
      end.
      * destruct (EnumDevices_visit _ devs _) as [i s] eqn:E.
        simpl in H. replace i with (fst (i, s)) in H by reflexivity.
        rewrite <- E in H. apply IH in H. destruct H as [H _]. discriminate.
      * simpl in H. discriminate.
    + rewrite GetDeviceCallback_skip in H by assumption.
      destruct (EnumDevices_visit _ devs _) as [i s] eqn:E.
      simpl in H. replace i with (fst (i, s)) in H by reflexivity.
      rewrite <- E in H. apply IH in H. destruct H as [H0 Hall].
      split; [assumption|]. intros x [<-|Hx]; auto.
Qed.

(** The visit stops at the first candidate that matches both criteria. *)
Lemma EnumDevices_visit_full_match :
  forall pre d post f0,
    fully_matches n path d ->
    (forall x, In x pre -> ~ fully_matches n path x) ->
    EnumDevices_visit GetDeviceCallback (pre ++ d :: post)
      (mkInfo f0 (Some n) path) =
    (mkInfo (Some (dev_filter d)) (Some n) path, pre ++ [d]).
Proof.
  intros pre d post f0 (p & Hp & Hn & Hd) Hpre.
  destruct (EnumDevices_visit_app pre (d :: post) f0 Hpre) as [f1 E].
  rewrite E. simpl.
  rewrite Hn, Hd, (GetDeviceCallback_full f1 _ p Hp). reflexivity.
Qed.

(** Without such a candidate the visit runs to the end and keeps the last
    candidate whose name matched. *)
Lemma EnumDevices_visit_last_named :
  forall pre d post f0,
    (forall x, In x (pre ++ d :: post) -> ~ fully_matches n path x) ->
    dev_name d = n ->
    (forall x, In x post -> dev_name x <> n) ->
    EnumDevices_visit GetDeviceCallback (pre ++ d :: post)
      (mkInfo f0 (Some n) path) =
    (mkInfo (Some (dev_filter d)) (Some n) path, pre ++ d :: post).
Proof.
  intros pre d post f0 Hall Hn Hpost.
  assert (Hpre : forall x, In x pre -> ~ fully_matches n path x)
    by (intros x Hx; apply Hall, in_or_app; now left).
  destruct (EnumDevices_visit_app pre (d :: post) f0 Hpre) as [f1 E].
  rewrite E. simpl. rewrite Hn, GetDeviceCallback_name_only.
  - rewrite EnumDevices_visit_unnamed by assumption. reflexivity.
  - intros p Hp Hdp. apply (Hall d).
    + apply in_or_app. right. now left.
    + exists p. auto.
Qed.

End DeviceCallback.

(** ** Device-filter resolver *)

(** C1 (amended): with a set device name, the traversal stops at the first
    candidate that matches both the set name and a set path, and that
    candidate is returned; when no candidate matches both (in particular
    when the path criterion is unset) every candidate is visited and the
    last candidate whose name matched is returned; not-found is returned
    exactly when no candidate's name matched. *)
Theorem GetDeviceFilter_traversal :
  forall registered type devs n path out,
    registered type = Some devs ->
    (forall pre d post,
        devs = pre ++ d :: post ->
        fully_matches n path d ->
        (forall x, In x pre -> ~ fully_matches n path x) ->
        GetDeviceFilter_visited registered type (Some n) path = pre ++ [d] /\
        GetDeviceFilter registered type (Some n) path out =
          (true, Some (dev_filter d))) /\
    ((forall x, In x devs -> ~ fully_matches n path x) ->
        GetDeviceFilter_visited registered type (Some n) path = devs /\
        forall pre d post,
          devs = pre ++ d :: post ->
          dev_name d = n ->
          (forall x, In x post -> dev_name x <> n) ->
          GetDeviceFilter registered type (Some n) path out =
            (true, Some (dev_filter d))) /\
    (GetDeviceFilter registered type (Some n) path out = (false, out) <->
     forall x, In x devs -> dev_name x <> n).
Proof.
  intros registered type devs n path out Hreg.
  unfold GetDeviceFilter, GetDeviceFilter_visited, EnumDevices.
  rewrite Hreg. simpl. split; [|split; [|split]].
  - (* the visit stops at the full match, which is returned *)
    intros pre d post Hdevs Hfull Hpre. subst devs.
    rewrite (EnumDevices_visit_full_match n path pre d post None Hfull Hpre).
    split; reflexivity.
  - (* without a full match every candidate is visited ... *)
    intros Hnone. split.
    + destruct (EnumDevices_visit_app n path devs [] None Hnone) as [f1 E].
      rewrite app_nil_r in E. rewrite E. simpl. apply app_nil_r.
    + (* ... and the last name match is returned *)
      intros pre d post Hdevs Hn Hpost. subst devs.
      now rewrite (EnumDevices_visit_last_named n path pre d post None).
  - (* not found: no candidate carried the name *)
    intros Hr.
    destruct (info_filter (fst (EnumDevices_visit GetDeviceCallback devs
                (mkInfo None (Some n) path)))) eqn:E; [discriminate|].
    apply EnumDevices_visit_nothing in E. apply E.
  - intros Hnone. now rewrite EnumDevices_visit_unnamed.
Qed.

Lemma GetDeviceFilter_traversal_witness :
  (GetDeviceFilter_visited two_cameras CLSID_VideoInputDeviceCategory
     (Some (L "Cam1")) None = [cam1A; cam1B] /\
   GetDeviceFilter two_cameras CLSID_VideoInputDeviceCategory
     (Some (L "Cam1")) None None = (true, Some filterB)) /\
  (GetDeviceFilter_visited two_cameras CLSID_VideoInputDeviceCategory
     (Some (L "Cam1")) (Some (L "A")) = [cam1A] /\
   GetDeviceFilter two_cameras CLSID_VideoInputDeviceCategory
     (Some (L "Cam1")) (Some (L "A")) None = (true, Some filterA)).
Proof.
  split.
  - destruct (GetDeviceFilter_traversal two_cameras
                CLSID_VideoInputDeviceCategory [cam1A; cam1B] (L "Cam1")
                None None eq_refl) as (_ & Hlast & _).
    destruct Hlast as [Hseen Hret].
    + intros x _ (p & Hp & _). discriminate Hp.
    + split; [exact Hseen|].
      apply (Hret [cam1A] cam1B []); [reflexivity | reflexivity |].
      intros x [].
  - destruct (GetDeviceFilter_traversal two_cameras
                CLSID_VideoInputDeviceCategory [cam1A; cam1B] (L "Cam1")
                (Some (L "A")) None eq_refl) as (Hstop & _).
    apply (Hstop [] cam1A [cam1B]); [reflexivity | | intros x []].
    exists (L "A"). repeat split.
Defined.

(** C1 as stated fails: with name "Cam1" and the path criterion unset, the
    first candidate matches the name, yet the traversal does not stop at
    it; the second candidate is visited too and is the one returned. *)
Lemma GetDeviceFilter_unset_path_no_stop :
  dev_name cam1A = L "Cam1" /\
  fst (GetDeviceCallback (mkInfo None (Some (L "Cam1")) None)
         (Some filterA) (dev_name cam1A) (dev_path cam1A)) = true /\
  GetDeviceFilter_visited two_cameras CLSID_VideoInputDeviceCategory
    (Some (L "Cam1")) None <> [cam1A] /\
  GetDeviceFilter two_cameras CLSID_VideoInputDeviceCategory
    (Some (L "Cam1")) None None <> (true, Some (dev_filter cam1A)).
Proof.
  repeat split; try reflexivity; vm_compute; discriminate.
Qed.

(** C2: when name and path are both set and a visited candidate matches
    both, that candidate is returned, not an earlier one that matched the
    name only; with name "Cam1", path "B" and the two cameras the result is
    the ("Cam1", "B") candidate. *)
Theorem GetDeviceFilter_prefers_full_match :
  (forall registered type pre d post n p out,
      registered type = Some (pre ++ d :: post) ->
      dev_name d = n ->
      dev_path d = Some p ->
      (forall x, In x pre -> ~ (dev_name x = n /\ dev_path x = Some p)) ->
      GetDeviceFilter registered type (Some n) (Some p) out =
        (true, Some (dev_filter d))) /\
  GetDeviceFilter two_cameras CLSID_VideoInputDeviceCategory
    (Some (L "Cam1")) (Some (L "B")) None = (true, Some (dev_filter cam1B)) /\
  dev_filter cam1B <> dev_filter cam1A.
Proof.
  split; [|split; [reflexivity | discriminate]].
  intros registered type pre d post n p out Hreg Hn Hp Hpre.
  unfold GetDeviceFilter, EnumDevices. rewrite Hreg. simpl.
  rewrite (EnumDevices_visit_full_match n (Some p) pre d post None).
  - reflexivity.
  - exists p. auto.
  - intros x Hx (q & Hq & Hxn & Hxp). injection Hq as <-.
    apply (Hpre x Hx). auto.
Qed.

Lemma GetDeviceFilter_prefers_full_match_witness :
  GetDeviceFilter two_cameras CLSID_VideoInputDeviceCategory
    (Some (L "Cam1")) (Some (L "B")) (Some filterA) = (true, Some filterB).
Proof.
  apply (proj1 GetDeviceFilter_prefers_full_match two_cameras
           CLSID_VideoInputDeviceCategory [cam1A] cam1B [] (L "Cam1") (L "B")
           (Some filterA)); try reflexivity.
  intros x [<-|[]] [_ Hp]. discriminate Hp.
Defined.

(** ** Pin predicates *)

(** The capability loop finds a capability of the requested type among the
    indices it still has to run through, when the successful fetches before
    it stored their media types. *)
Lemma PinConfigHasMajorType_loop_found :
  forall config type n i0 i mt,
    i0 <= i < i0 + Z.of_nat n ->
    SUCCEEDED (fst (GetStreamCaps config i)) = true ->
    snd (GetStreamCaps config i) = Some mt ->
    majortype mt = type ->
    fetches_store config i0 i (fun _ => True) ->
    PinConfigHasMajorType_loop config type n i0 = Returns true.
Proof.
  intros config type n. induction n as [|n IH];
    intros i0 i mt Hi Hs Hmt Hm Hbefore.
  - lia.
  - cbn [PinConfigHasMajorType_loop].
    destruct (Z.eq_dec i i0) as [->|Hne].
    + destruct (GetStreamCaps config i0) as [hr0 mt0].
      cbn [fst snd] in Hs, Hmt. subst mt0.
      now rewrite Hs, Hm, IsEqualGUID_refl.
    + assert (Hnext : PinConfigHasMajorType_loop config type n (i0 + 1) =
                      Returns true).
      { apply (IH (i0 + 1) i mt); auto; [lia|].
        intros j Hj. apply Hbefore. lia. }
      assert (Hhere := Hbefore i0).
      destruct (GetStreamCaps config i0) as [hr0 mt0].
      cbn [fst snd] in Hhere.
      destruct (SUCCEEDED hr0); [|exact Hnext].
      destruct Hhere as (mt' & -> & _); [lia | reflexivity |].
      destruct (IsEqualGUID (majortype mt') type); [reflexivity | exact Hnext].
Qed.

(** A negative buffer size makes the capability check leave by
    [std::length_error]. *)
Lemma PinConfigHasMajorType_negative_size :
  forall pin config type,
    QueryInterface_IAMStreamConfig pin = Some config ->
    SUCCEEDED (fst (GetNumberOfCapabilities config)) = true ->
    snd (snd (GetNumberOfCapabilities config)) < 0 ->
    PinConfigHasMajorType pin type = length_error /\
    PinHasMajorType pin type = length_error.
Proof.
  intros pin config type Hqi Hok Hsize.
  assert (H : PinConfigHasMajorType pin type = length_error).
  { unfold PinConfigHasMajorType. rewrite Hqi.
    destruct (GetNumberOfCapabilities config) as [hr [count size]].
    cbn [fst snd] in Hok, Hsize. rewrite FAILED_SUCCEEDED, Hok. cbn [negb].
    now rewrite (proj2 (Z.ltb_lt size 0) Hsize). }
  split; [exact H|]. unfold PinHasMajorType. now rewrite H.
Qed.

(** A fetch that succeeds without storing a media type makes the capability
    loop read through a null pointer. *)
Lemma PinConfigHasMajorType_loop_null :
  forall config type n i0,
    SUCCEEDED (fst (GetStreamCaps config i0)) = true ->
    snd (GetStreamCaps config i0) = None ->
    PinConfigHasMajorType_loop config type (S n) i0 = null_dereference.
Proof.
  intros config type n i0 Hs Hnone. cbn [PinConfigHasMajorType_loop].
  destruct (GetStreamCaps config i0) as [hr0 mt0]. cbn [fst snd] in Hs, Hnone.
  now rewrite Hs, Hnone.
Qed.



(** When [GetPinCategory] succeeds the category it stores does not depend
    on what the caller's GUID held before. *)
Lemma GetPinCategory_any_initial :
  forall pin category0 category1,
    SUCCEEDED (fst (GetPinCategory pin category0)) = true ->
    GetPinCategory pin category1 = GetPinCategory pin category0.
Proof.
  intros pin category0 category1. unfold GetPinCategory.
  destruct pin as [p|]; [|discriminate].
  destruct (QueryInterface_IKsPropertySet p); [reflexivity | discriminate].
Qed.

(** X7: a category query that fails with a status other than
    [E_NOINTERFACE] makes the pin match no category. *)
Lemma PinIsCategory_query_failure :
  forall pin propertySet category,
    QueryInterface_IKsPropertySet pin = Some propertySet ->
    FAILED (fst (Get propertySet AMPROPSETID_Pin AMPROPERTY_PIN_CATEGORY))
      = true ->
    fst (Get propertySet AMPROPSETID_Pin AMPROPERTY_PIN_CATEGORY)
      <> E_NOINTERFACE ->
    PinIsCategory (Some pin) category = false.
Proof.
  intros pin propertySet category Hsome Hf Hne.
  unfold PinIsCategory, GetPinCategory. rewrite Hsome.
  destruct (Get propertySet AMPROPSETID_Pin AMPROPERTY_PIN_CATEGORY)
    as [hr pinCategory].
  simpl in Hf, Hne. rewrite Hf. now apply Z.eqb_neq.
Qed.

(** C4 (amended): a pin that lacks the property-set interface, or whose
    category query answers [E_NOINTERFACE], matches every requested
    category; a pin whose category property can be read matches exactly the
    requested category equal to its own. *)
Theorem PinIsCategory_auto_match :
  forall pin category,
    (QueryInterface_IKsPropertySet pin = None \/
     (exists propertySet,
         QueryInterface_IKsPropertySet pin = Some propertySet /\
         fst (Get propertySet AMPROPSETID_Pin AMPROPERTY_PIN_CATEGORY) =
           E_NOINTERFACE) ->
     PinIsCategory (Some pin) category = true) /\
    (forall propertySet hr pinCategory,
        QueryInterface_IKsPropertySet pin = Some propertySet ->
        Get propertySet AMPROPSETID_Pin AMPROPERTY_PIN_CATEGORY =
          (hr, pinCategory) ->
        SUCCEEDED hr = true ->
        (PinIsCategory (Some pin) category = true <->
         pinCategory = category)).
Proof.
  intros pin category. split.
  - intros [Hnone|(propertySet & Hsome & Hhr)];
      unfold PinIsCategory, GetPinCategory.
    + rewrite Hnone. reflexivity.
    + rewrite Hsome.
      destruct (Get propertySet AMPROPSETID_Pin AMPROPERTY_PIN_CATEGORY)
        as [hr pinCategory].
      simpl in Hhr. subst hr. reflexivity.
  - intros propertySet hr pinCategory Hsome Hget Hok.
    unfold PinIsCategory, GetPinCategory. rewrite Hsome, Hget.
    rewrite FAILED_SUCCEEDED, Hok. simpl.
    rewrite IsEqualGUID_true. split; congruence.
Qed.

Lemma PinIsCategory_auto_match_witness :
  PinIsCategory (Some video_capable_pin) PIN_CATEGORY_PREVIEW = true /\
  PinIsCategory (Some capture_pin) PIN_CATEGORY_CAPTURE = true /\
  PinIsCategory (Some capture_pin) PIN_CATEGORY_PREVIEW <> true.
Proof.
  split; [|split].
  - apply (proj1 (PinIsCategory_auto_match video_capable_pin
                    PIN_CATEGORY_PREVIEW)). left. reflexivity.
  - apply (proj2 (PinIsCategory_auto_match capture_pin PIN_CATEGORY_CAPTURE)
             (mkPropertySet (fun _ _ => (S_OK, PIN_CATEGORY_CAPTURE)))
             S_OK PIN_CATEGORY_CAPTURE); reflexivity.
  - intros H.
    apply (proj2 (PinIsCategory_auto_match capture_pin PIN_CATEGORY_PREVIEW)
             (mkPropertySet (fun _ _ => (S_OK, PIN_CATEGORY_CAPTURE)))
             S_OK PIN_CATEGORY_CAPTURE) in H; try reflexivity.
    discriminate H.
Defined.

(** C4 as stated fails: the pin below has a property set that does not
    know the category property, so it exposes no category property at all;
    the category query fails with a status other than [E_NOINTERFACE] and
    the pin is no automatic match. *)
Lemma PinIsCategory_unsupported_property_no_match :
  fst (GetPinCategory (Some uncategorised_pin) GUID_NULL) =
    E_PROP_ID_UNSUPPORTED /\
  FAILED E_PROP_ID_UNSUPPORTED = true /\
  PinIsCategory (Some uncategorised_pin) PIN_CATEGORY_CAPTURE <> true.
Proof.
  split; [reflexivity|]. split; [reflexivity|]. vm_compute. discriminate.
Qed.

(** C5: on a pin, [PinNameIs] answers true when the name criterion is
    unset; otherwise it answers true exactly when the pin's name can be
    queried and equals the requested name code unit by code unit, so that
    names differing in case do not match. *)
Theorem PinNameIs_exact :
  forall pin,
    PinNameIs (Some pin) None = true /\
    (forall name,
        PinNameIs (Some pin) (Some name) = true <->
        SUCCEEDED (fst (QueryPinInfo pin)) = true /\
        achName (snd (QueryPinInfo pin)) = name) /\
    (achName (snd (QueryPinInfo pin)) = L "Capture" ->
     PinNameIs (Some pin) (Some (L "capture")) = false).
Proof.
  intros pin. split; [reflexivity|].
  assert (Hiff : forall name,
             PinNameIs (Some pin) (Some name) = true <->
             SUCCEEDED (fst (QueryPinInfo pin)) = true /\
             achName (snd (QueryPinInfo pin)) = name).
  { intros name. unfold PinNameIs.
    destruct (QueryPinInfo pin) as [hr pinInfo]. simpl.
    rewrite FAILED_SUCCEEDED. destruct (SUCCEEDED hr); simpl.
    - rewrite wcscmp_eqb_true. split.
      + intros ->. auto.
      + intros [_ ->]. reflexivity.
    - split; [discriminate | intros [H _]; discriminate]. }
  split; [exact Hiff|].
  intros Hname.
  destruct (PinNameIs (Some pin) (Some (L "capture"))) eqn:E; [|reflexivity].
  apply Hiff in E. destruct E as [_ E]. rewrite Hname in E. discriminate E.
Qed.

Lemma PinNameIs_exact_witness :
  PinNameIs (Some capture_pin) (Some (L "Capture")) = true /\
  PinNameIs (Some capture_pin) (Some (L "capture")) = false.
Proof.
  split.
  - apply (proj1 (proj2 (PinNameIs_exact capture_pin))). split; reflexivity.
  - apply (proj2 (proj2 (PinNameIs_exact capture_pin))). reflexivity.
Defined.

(** ** Medium extractor *)

Lemma sentinel_test :
  forall m,
    negb (IsEqualGUID (clsMedium m) GUID_NULL) &&
    negb (IsEqualGUID (clsMedium m) KSMEDIUMSETID_Standard) = true <->
    ~ is_sentinel m.
Proof.
  intros m. unfold is_sentinel.
  rewrite andb_true_iff, !negb_true_iff, !IsEqualGUID_false. tauto.
Qed.

Lemma sentinel_test_false :
  forall m,
    negb (IsEqualGUID (clsMedium m) GUID_NULL) &&
    negb (IsEqualGUID (clsMedium m) KSMEDIUMSETID_Standard) = false <->
    is_sentinel m.
Proof.
  intros m. unfold is_sentinel.
  rewrite andb_false_iff, !negb_false_iff, !IsEqualGUID_true. tauto.
Qed.

(** The scan passes over leading sentinels and stops at the first entry
    that is none. *)
Lemma GetPinMedium_loop_first :
  forall pre m post,
    (forall x, In x pre -> is_sentinel x) ->
    ~ is_sentinel m ->
    GetPinMedium_loop (pre ++ m :: post) = (true, m).
Proof.
  induction pre as [|x pre IH]; intros m post Hpre Hm; simpl.
  - apply sentinel_test in Hm. now rewrite Hm.
  - assert (Hx : is_sentinel x) by (apply Hpre; now left).
    apply sentinel_test_false in Hx. rewrite Hx.
    apply IH; [|assumption]. intros y Hy. apply Hpre. now right.
Qed.

(** What the scan returns as found is an entry of the list and no
    sentinel. *)
Lemma GetPinMedium_loop_true :
  forall items m,
    GetPinMedium_loop items = (true, m) -> In m items /\ ~ is_sentinel m.
Proof.
  induction items as [|x items IH]; intros m H; simpl in H.
  - discriminate.
  - destruct (negb (IsEqualGUID (clsMedium x) GUID_NULL) &&
              negb (IsEqualGUID (clsMedium x) KSMEDIUMSETID_Standard)) eqn:E.
    + injection H as <-. split; [now left | now apply sentinel_test].
    + destruct (IH m H) as [Hin Hm]. split; [now right | assumption].
Qed.

(** Over sentinels only the scan fails and the medium is zeroed. *)
Lemma GetPinMedium_loop_sentinels :
  forall items,
    (forall x, In x items -> is_sentinel x) ->
    GetPinMedium_loop items = (false, REGPINMEDIUM_zero).
Proof.
  induction items as [|x items IH]; intros H; simpl; [reflexivity|].
  assert (Hx : is_sentinel x) by (apply H; now left).
  apply sentinel_test_false in Hx. rewrite Hx.
  apply IH. intros y Hy. apply H. now right.
Qed.

(** A scan that fails saw sentinels only. *)
Lemma GetPinMedium_loop_false :
  forall items m,
    GetPinMedium_loop items = (false, m) ->
    m = REGPINMEDIUM_zero /\ forall x, In x items -> is_sentinel x.
Proof.
  induction items as [|x items IH]; intros m H; simpl in H.
  - injection H as <-. split; [reflexivity | intros x []].
  - destruct (negb (IsEqualGUID (clsMedium x) GUID_NULL) &&
              negb (IsEqualGUID (clsMedium x) KSMEDIUMSETID_Standard)) eqn:E;
      [discriminate|].
    destruct (IH m H) as [Hm Hall]. split; [assumption|].
    intros y [<-|Hy]; [now apply sentinel_test_false | now apply Hall].
Qed.

(** C6: what [GetPinMedium] returns as a result is never a medium with a
    sentinel class id; when the medium query succeeds, the result is the
    first reported entry that is no sentinel, and when every reported
    entry is a sentinel the call fails. *)
Theorem GetPinMedium_first_real_medium :
  forall pin medium,
    (forall m, GetPinMedium pin medium = (true, m) -> ~ is_sentinel m) /\
    (forall p ksPin hr items,
        pin = Some p ->
        QueryInterface_IKsPin p = Some ksPin ->
        KsQueryMediums ksPin = (hr, items) ->
        SUCCEEDED hr = true ->
        (forall pre m post,
            items = pre ++ m :: post ->
            (forall x, In x pre -> is_sentinel x) ->
            ~ is_sentinel m ->
            GetPinMedium pin medium = (true, m)) /\
        ((forall x, In x items -> is_sentinel x) ->
         fst (GetPinMedium pin medium) = false)).
Proof.
  intros pin medium. split.
  - intros m H. unfold GetPinMedium in H.
    destruct pin as [p|]; [|discriminate].
    destruct (QueryInterface_IKsPin p) as [ksPin|]; [|discriminate].
    destruct (KsQueryMediums ksPin) as [hr items].
    destruct (FAILED hr); [discriminate|].
    now apply GetPinMedium_loop_true in H.
  - intros p ksPin hr items -> Hqi Hq Hok.
    unfold GetPinMedium. rewrite Hqi, Hq, FAILED_SUCCEEDED, Hok. simpl.
    split.
    + intros pre m post -> Hpre Hm. now apply GetPinMedium_loop_first.
    + intros Hall. now rewrite GetPinMedium_loop_sentinels.
Qed.

Lemma GetPinMedium_first_real_medium_witness :
  GetPinMedium (Some tuner_pin) medium_null = (true, medium_tuner) /\
  fst (GetPinMedium (Some sentinel_pin) medium_tuner) = false.
Proof.
  split.
  - apply (proj2 (GetPinMedium_first_real_medium (Some tuner_pin) medium_null)
             tuner_pin
             (mkKsPin (S_OK, [medium_null; medium_standard; medium_tuner]))
             S_OK [medium_null; medium_standard; medium_tuner]
             eq_refl eq_refl eq_refl eq_refl)
      with (pre := [medium_null; medium_standard]) (post := []).
    + reflexivity.
    + intros x [<-|[<-|[]]]; [left | right]; reflexivity.
    + intros [H|H]; discriminate H.
  - apply (proj2 (GetPinMedium_first_real_medium (Some sentinel_pin)
                    medium_tuner)
             sentinel_pin (mkKsPin (S_OK, [medium_standard; medium_null]))
             S_OK [medium_standard; medium_null]
             eq_refl eq_refl eq_refl eq_refl).
    intros x [<-|[<-|[]]]; [right | left]; reflexivity.
Defined.

(** C10: a failing [GetPinMedium] leaves the medium of the caller as it was
    when the medium query cannot be made, and sets it to all-zero bytes
    when the query succeeds and reports sentinels only; a failing call is
    always one of the two. *)
Theorem GetPinMedium_failure_writes :
  forall pin medium,
    (medium_query_fails pin -> GetPinMedium pin medium = (false, medium)) /\
    (only_sentinels_reported pin ->
     GetPinMedium pin medium = (false, REGPINMEDIUM_zero)) /\
    (fst (GetPinMedium pin medium) = false ->
     (medium_query_fails pin /\ snd (GetPinMedium pin medium) = medium) \/
     (only_sentinels_reported pin /\
      snd (GetPinMedium pin medium) = REGPINMEDIUM_zero)).
Proof.
  intros pin medium. unfold medium_query_fails, only_sentinels_reported.
  split; [|split].
  - intros [->|[(p & -> & Hqi)|(p & ksPin & -> & Hqi & Hf)]];
      unfold GetPinMedium; [reflexivity | now rewrite Hqi |].
    rewrite Hqi. destruct (KsQueryMediums ksPin) as [hr items].
    simpl in Hf. now rewrite Hf.
  - intros (p & ksPin & -> & Hqi & Hok & Hall).
    unfold GetPinMedium. rewrite Hqi.
    destruct (KsQueryMediums ksPin) as [hr items]. simpl in Hok, Hall.
    rewrite FAILED_SUCCEEDED, Hok. simpl.
    now apply GetPinMedium_loop_sentinels.
  - unfold GetPinMedium. destruct pin as [p|]; [|left; auto].
    destruct (QueryInterface_IKsPin p) as [ksPin|] eqn:Hqi;
      [|left; split; [right; left; eauto | reflexivity]].
    destruct (KsQueryMediums ksPin) as [hr items] eqn:Hq.
    destruct (FAILED hr) eqn:Hf.
    + intros _. left. split; [|reflexivity]. right. right.
      exists p, ksPin. rewrite Hq. auto.
    + intros Hr. right.
      destruct (GetPinMedium_loop items) as [b m] eqn:El. simpl in Hr.
      subst b. apply GetPinMedium_loop_false in El. destruct El as [-> Hall].
      split; [|reflexivity].
      exists p, ksPin. rewrite Hq. simpl.
      rewrite FAILED_SUCCEEDED in Hf. apply negb_false_iff in Hf. auto.
Qed.

Lemma GetPinMedium_failure_writes_witness :
  GetPinMedium None medium_tuner = (false, medium_tuner) /\
  GetPinMedium (Some sentinel_pin) medium_tuner = (false, REGPINMEDIUM_zero).
Proof.
  split.
  - apply (proj1 (GetPinMedium_failure_writes None medium_tuner)).
    left. reflexivity.
  - apply (proj1 (proj2 (GetPinMedium_failure_writes (Some sentinel_pin)
                           medium_tuner))).
    exists sentinel_pin, (mkKsPin (S_OK, [medium_standard; medium_null])).
    repeat split.
    intros x [<-|[<-|[]]]; [right | left]; reflexivity.
Defined.

(** ** Pin walkers *)

Lemma PinMatches_true :
  forall pin type category dir,
    PinMatches pin type category dir = Returns true <->
    satisfies_all type category dir pin.
Proof.
  intros pin type category dir. unfold PinMatches, satisfies_all.
  destruct (PinHasMajorType pin type) as [[|]| |],
    (PinIsDirection (Some pin) dir), (PinIsCategory (Some pin) category);
    cbn [negb]; intuition congruence.
Qed.






(** C9: called with a null filter handle, or with a filter whose pin
    enumeration cannot be obtained, [GetFilterPin], [GetPinByName] and
    [GetPinByMedium] return false and leave the out pin as it was. *)
Theorem pin_walkers_no_enumeration :
  forall filter type category dir name medium out,
    no_pin_enumeration filter ->
    GetFilterPin filter type category dir out = Returns (false, out) /\
    GetPinByName filter dir name out = (false, out) /\
    GetPinByMedium filter medium out = (false, out).
Proof.
  intros filter type category dir name medium out [->|(f & -> & Hf)].
  - repeat split.
  - unfold GetFilterPin, GetPinByName, GetPinByMedium.
    destruct (EnumPins f) as [hr pins]. simpl in Hf. rewrite Hf.
    repeat split.
Qed.

Lemma pin_walkers_no_enumeration_witness :
  GetFilterPin (Some broken_filter) MEDIATYPE_Video PIN_CATEGORY_CAPTURE
    PINDIR_OUTPUT (Some tuner_pin) = Returns (false, Some tuner_pin) /\
  GetPinByName None PINDIR_OUTPUT (Some (L "Capture")) (Some tuner_pin) =
    (false, Some tuner_pin) /\
  GetPinByMedium (Some broken_filter) medium_tuner None = (false, None).
Proof.
  split; [|split].
  - apply (pin_walkers_no_enumeration (Some broken_filter) MEDIATYPE_Video
             PIN_CATEGORY_CAPTURE PINDIR_OUTPUT None medium_tuner
             (Some tuner_pin)).
    right. exists broken_filter. split; reflexivity.
  - apply (pin_walkers_no_enumeration None MEDIATYPE_Video
             PIN_CATEGORY_CAPTURE PINDIR_OUTPUT (Some (L "Capture"))
             medium_tuner (Some tuner_pin)).
    left. reflexivity.
  - apply (pin_walkers_no_enumeration (Some broken_filter) MEDIATYPE_Video
             PIN_CATEGORY_CAPTURE PINDIR_OUTPUT None medium_tuner None).
    right. exists broken_filter. split; reflexivity.
Defined.

(** ** Medium cross-reference resolver *)

(** On success the medium [GetPinMedium] stores does not depend on what the
    caller's medium held before. *)
Lemma GetPinMedium_true_any_initial :
  forall pin medium0 medium1 m,
    GetPinMedium pin medium0 = (true, m) ->
    GetPinMedium pin medium1 = (true, m).
Proof.
  intros pin medium0 medium1 m. unfold GetPinMedium.
  destruct pin as [p|]; [|discriminate].
  destruct (QueryInterface_IKsPin p) as [ksPin|]; [|discriminate].
  destruct (KsQueryMediums ksPin) as [hr items].
  destruct (FAILED hr); [discriminate | auto].
Qed.

Lemma GetPinByMedium_loop_found :
  forall pins medium out p,
    In p pins ->
    GetPinMedium (Some p) REGPINMEDIUM_zero = (true, medium) ->
    fst (GetPinByMedium_loop pins medium out) = true.
Proof.
  induction pins as [|x pins IH]; intros medium out p Hin Hp; [destruct Hin|].
  cbn [GetPinByMedium_loop].
  destruct (GetPinMedium (Some x) REGPINMEDIUM_zero) as [got curMedium] eqn:Ex.
  destruct (got && REGPINMEDIUM_memcmp_eq medium curMedium) eqn:Ehit;
    [reflexivity|].
  destruct Hin as [<-|Hin].
  - rewrite Hp in Ex. injection Ex as <- <-.
    rewrite (proj2 (REGPINMEDIUM_memcmp_eq_true medium medium) eq_refl) in Ehit.
    discriminate.
  - now apply (IH medium out p).
Qed.

Lemma GetPinByMedium_loop_true :
  forall pins medium out,
    fst (GetPinByMedium_loop pins medium out) = true ->
    exists p,
      In p pins /\
      GetPinMedium (Some p) REGPINMEDIUM_zero = (true, medium).
Proof.
  induction pins as [|x pins IH]; intros medium out H; [discriminate|].
  cbn [GetPinByMedium_loop] in H.
  destruct (GetPinMedium (Some x) REGPINMEDIUM_zero) as [got curMedium] eqn:Ex.
  destruct (got && REGPINMEDIUM_memcmp_eq medium curMedium) eqn:Ehit.
  - apply andb_true_iff in Ehit. destruct Ehit as [-> Heq].
    apply REGPINMEDIUM_memcmp_eq_true in Heq. subst curMedium.
    exists x. split; [now left | assumption].
  - destruct (IH medium out H) as (p & Hin & Hp).
    exists p. split; [now right | assumption].
Qed.

(** A filter exposing the medium is accepted by [GetPinByMedium], and only
    such a filter is. *)
Lemma GetPinByMedium_exposes :
  forall f medium out,
    fst (GetPinByMedium (Some f) medium out) = true <->
    exposes_medium f medium.
Proof.
  intros f medium out. unfold GetPinByMedium, exposes_medium.
  destruct (EnumPins f) as [hr pins]. simpl.
  rewrite FAILED_SUCCEEDED. destruct (SUCCEEDED hr); simpl.
  - split.
    + intros H. split; [reflexivity|].
      now apply GetPinByMedium_loop_true in H.
    + intros [_ (p & Hin & Hp)]. now apply (GetPinByMedium_loop_found _ _ _ p).
  - split; [discriminate | intros [H _]; discriminate].
Qed.

Lemma GetFilterByMediumFromMoniker_match :
  forall moniker medium out f,
    SUCCEEDED (fst (BindToObject moniker)) = true ->
    snd (BindToObject moniker) = Some f ->
    exposes_medium f medium ->
    GetFilterByMediumFromMoniker moniker medium out = (true, Some f).
Proof.
  intros moniker medium out f Hok Hf Hexp.
  unfold GetFilterByMediumFromMoniker.
  destruct (BindToObject moniker) as [hr curFilter]. simpl in Hok, Hf.
  subst curFilter. rewrite Hok.
  apply (GetPinByMedium_exposes f medium None) in Hexp.
  destruct (GetPinByMedium (Some f) medium None) as [found pin].
  simpl in Hexp. now subst found.
Qed.

Lemma GetFilterByMediumFromMoniker_no_match :
  forall moniker medium out,
    ~ candidate_matches medium moniker ->
    GetFilterByMediumFromMoniker moniker medium out = (false, out).
Proof.
  intros moniker medium out Hno.
  unfold GetFilterByMediumFromMoniker, candidate_matches in *.
  destruct (BindToObject moniker) as [hr curFilter]. simpl in Hno.
  destruct (SUCCEEDED hr); [|reflexivity].
  destruct (GetPinByMedium curFilter medium None) as [found pin] eqn:E.
  destruct found; [|reflexivity].
  exfalso. destruct curFilter as [f|]; [|discriminate].
  apply Hno. exists f. split; [reflexivity | split; [reflexivity|]].
  apply (GetPinByMedium_exposes f medium None). now rewrite E.
Qed.

(** A candidate that cannot be instantiated does not match. *)
Lemma failed_candidate_no_match :
  forall moniker medium,
    FAILED (fst (BindToObject moniker)) = true ->
    ~ candidate_matches medium moniker.
Proof.
  intros moniker medium Hf (f & Hok & _).
  rewrite FAILED_SUCCEEDED, Hok in Hf. discriminate.
Qed.

Lemma GetFilterByMedium_loop_first :
  forall pre m post medium out f,
    SUCCEEDED (fst (BindToObject m)) = true ->
    snd (BindToObject m) = Some f ->
    exposes_medium f medium ->
    (forall x, In x pre -> ~ candidate_matches medium x) ->
    GetFilterByMedium_loop (pre ++ m :: post) medium out = (true, Some f).
Proof.
  induction pre as [|x pre IH]; intros m post medium out f Hok Hf Hexp Hpre;
    simpl.
  - now rewrite (GetFilterByMediumFromMoniker_match m medium out f).
  - rewrite GetFilterByMediumFromMoniker_no_match by (apply Hpre; now left).
    apply IH; auto. intros y Hy. apply Hpre. now right.
Qed.

Lemma GetFilterByMedium_loop_none :
  forall monikers medium out,
    (forall x, In x monikers -> ~ candidate_matches medium x) ->
    GetFilterByMedium_loop monikers medium out = (false, out).
Proof.
  induction monikers as [|x monikers IH]; intros medium out H; simpl;
    [reflexivity|].
  rewrite GetFilterByMediumFromMoniker_no_match by (apply H; now left).
  apply IH. intros y Hy. apply H. now right.
Qed.

Lemma GetFilterByMedium_loop_false :
  forall monikers medium out r,
    GetFilterByMedium_loop monikers medium out = (false, r) ->
    forall x, In x monikers -> ~ candidate_matches medium x.
Proof.
  induction monikers as [|m monikers IH]; intros medium out r H x Hin;
    [destruct Hin|].
  simpl in H.
  destruct (GetFilterByMediumFromMoniker m medium out) as [found f'] eqn:E.
  destruct found; [discriminate|].
  destruct Hin as [<-|Hin].
  - intros (f & Hok & Hf & Hexp).
    rewrite (GetFilterByMediumFromMoniker_match m medium out f) in E
      by assumption.
    discriminate.
  - now apply (IH medium f' r H).
Qed.

(** C7: once the class enumerator is obtained, a candidate that cannot be
    instantiated counts as a non-match of that candidate and the traversal
    goes on: the filter of the first candidate that can be instantiated
    and exposes a pin whose extracted medium is the target is returned,
    whatever happened with the candidates before it, and not-found is
    returned exactly when no candidate matches. *)
Theorem GetFilterByMedium_skips_failed_candidates :
  forall hr0 deviceEnum id hr monikers medium out,
    SUCCEEDED hr0 = true ->
    CreateClassEnumerator deviceEnum id = (hr, Some monikers) ->
    SUCCEEDED hr = true ->
    (forall m,
        FAILED (fst (BindToObject m)) = true ->
        ~ candidate_matches medium m /\
        GetFilterByMediumFromMoniker m medium out = (false, out)) /\
    (forall pre m post f,
        monikers = pre ++ m :: post ->
        SUCCEEDED (fst (BindToObject m)) = true ->
        snd (BindToObject m) = Some f ->
        exposes_medium f medium ->
        (forall x, In x pre -> ~ candidate_matches medium x) ->
        GetFilterByMedium (hr0, Some deviceEnum) id medium out =
          Some (true, Some f)) /\
    (GetFilterByMedium (hr0, Some deviceEnum) id medium out =
       Some (false, out) <->
     forall x, In x monikers -> ~ candidate_matches medium x).
Proof.
  intros hr0 deviceEnum id hr monikers medium out Hok0 Henum Hok.
  unfold GetFilterByMedium.
  rewrite Henum, !FAILED_SUCCEEDED, Hok0, Hok. simpl.
  split; [|split].
  - intros m Hf. split.
    + now apply failed_candidate_no_match.
    + apply GetFilterByMediumFromMoniker_no_match.
      now apply failed_candidate_no_match.
  - intros pre m post f -> Hm Hf Hexp Hpre.
    now rewrite (GetFilterByMedium_loop_first pre m post medium out f).
  - split.
    + intros H. injection H as H.
      now apply (GetFilterByMedium_loop_false monikers medium out out).
    + intros H. now rewrite GetFilterByMedium_loop_none.
Qed.

Lemma GetFilterByMedium_skips_failed_candidates_witness :
  FAILED (fst (BindToObject failing_moniker)) = true /\
  GetFilterByMedium (S_OK, Some sample_deviceEnum)
    CLSID_AudioInputDeviceCategory medium_tuner None =
    Some (true, Some crossbar_filter).
Proof.
  split; [reflexivity|].
  apply (proj1 (proj2 (GetFilterByMedium_skips_failed_candidates S_OK
                         sample_deviceEnum CLSID_AudioInputDeviceCategory S_OK
                         [failing_moniker; unlinked_moniker; crossbar_moniker]
                         medium_tuner None eq_refl eq_refl eq_refl)))
    with (pre := [failing_moniker; unlinked_moniker]) (m := crossbar_moniker)
         (post := []).
  - reflexivity.
  - reflexivity.
  - reflexivity.
  - split; [reflexivity|]. exists tuner_pin. split; [|reflexivity].
    right. now left.
  - intros x [<-|[<-|[]]].
    + now apply failed_candidate_no_match.
    + intros (f & _ & Hf & _ & p & Hin & Hp).
      injection Hf as <-. destruct Hin as [<-|[]]. discriminate Hp.
Defined.

(** * Further properties *)

(** ** Pin walkers: [GetPinByName] *)

Lemma PinIsDirection_true :
  forall p dir, PinIsDirection (Some p) dir = true <-> has_direction dir p.
Proof.
  intros p dir. unfold PinIsDirection, has_direction.
  destruct (QueryDirection p) as [hr pinDir]. simpl.
  rewrite andb_true_iff.
  destruct pinDir, dir; simpl; intuition congruence.
Qed.

Lemma PinNameIs_true :
  forall p name, PinNameIs (Some p) name = true <-> has_name name p.
Proof.
  intros p [n|]; unfold PinNameIs, has_name; [|tauto].
  destruct (QueryPinInfo p) as [hr pinInfo]. simpl.
  rewrite FAILED_SUCCEEDED. destruct (SUCCEEDED hr); simpl.
  - rewrite wcscmp_eqb_true. intuition congruence.
  - intuition congruence.
Qed.

Lemma name_test :
  forall p dir name,
    PinIsDirection (Some p) dir && PinNameIs (Some p) name = true <->
    has_direction dir p /\ has_name name p.
Proof.
  intros p dir name.
  now rewrite andb_true_iff, PinIsDirection_true, PinNameIs_true.
Qed.

Lemma name_test_false :
  forall p dir name,
    PinIsDirection (Some p) dir && PinNameIs (Some p) name = false <->
    ~ (has_direction dir p /\ has_name name p).
Proof.
  intros p dir name. rewrite <- name_test.
  destruct (PinIsDirection (Some p) dir && PinNameIs (Some p) name);
    split; congruence.
Qed.

Lemma GetPinByName_loop_first :
  forall pre p post dir name out,
    has_direction dir p -> has_name name p ->
    (forall x, In x pre -> ~ (has_direction dir x /\ has_name name x)) ->
    GetPinByName_loop (pre ++ p :: post) dir name out = (true, Some p).
Proof.
  induction pre as [|x pre IH]; intros p post dir name out Hd Hn Hpre;
    cbn [app GetPinByName_loop].
  - now rewrite (proj2 (name_test p dir name) (conj Hd Hn)).
  - rewrite (proj2 (name_test_false x dir name) (Hpre x (or_introl eq_refl))).
    apply IH; auto. intros y Hy. apply Hpre. now right.
Qed.

Lemma GetPinByName_loop_none :
  forall pins dir name out,
    (forall x, In x pins -> ~ (has_direction dir x /\ has_name name x)) ->
    GetPinByName_loop pins dir name out = (false, out).
Proof.
  induction pins as [|x pins IH]; intros dir name out H;
    cbn [GetPinByName_loop]; [reflexivity|].
  rewrite (proj2 (name_test_false x dir name) (H x (or_introl eq_refl))).
  apply IH. intros y Hy. apply H. now right.
Qed.

(** What the name walk returns: on success a pin of the list with the
    direction and the name, on failure the out pin as it was. *)
Lemma GetPinByName_loop_result :
  forall pins dir name out b r,
    GetPinByName_loop pins dir name out = (b, r) ->
    (b = false /\ r = out /\
     forall x, In x pins -> ~ (has_direction dir x /\ has_name name x)) \/
    (b = true /\
     exists p, r = Some p /\ In p pins /\
               has_direction dir p /\ has_name name p).
Proof.
  induction pins as [|x pins IH]; intros dir name out b r H;
    cbn [GetPinByName_loop] in H.
  - injection H as <- <-. left. repeat split. intros x [].
  - destruct (PinIsDirection (Some x) dir && PinNameIs (Some x) name) eqn:E.
    + injection H as <- <-. right. split; [reflexivity|].
      exists x. apply name_test in E. destruct E as [Hd Hn].
      split; [reflexivity | split; [now left | split; assumption]].
    + apply name_test_false in E.
      destruct (IH dir name out b r H)
        as [(-> & -> & Hall)|(-> & p & -> & Hin & Hd & Hn)].
      * left. repeat split. intros y [<-|Hy]; auto.
      * right. split; [reflexivity|]. exists p.
        split; [reflexivity | split; [now right | split; assumption]].
Qed.

(** X1: [GetPinByName] returns the first pin, in enumeration order, whose
    direction query succeeds with the requested direction and whose name
    meets the criterion; it returns false, the out pin untouched, exactly
    when there is no such pin. *)
Theorem GetPinByName_first_match :
  forall filter hr pins dir name out,
    EnumPins filter = (hr, pins) ->
    SUCCEEDED hr = true ->
    (forall pre p post,
        pins = pre ++ p :: post ->
        has_direction dir p -> has_name name p ->
        (forall x, In x pre -> ~ (has_direction dir x /\ has_name name x)) ->
        GetPinByName (Some filter) dir name out = (true, Some p)) /\
    (GetPinByName (Some filter) dir name out = (false, out) <->
     forall x, In x pins -> ~ (has_direction dir x /\ has_name name x)).
Proof.
  intros filter hr pins dir name out Henum Hok.
  unfold GetPinByName. rewrite Henum, FAILED_SUCCEEDED, Hok. simpl. split.
  - intros pre p post -> Hd Hn Hpre. now apply GetPinByName_loop_first.
  - split.
    + intros H.
      destruct (GetPinByName_loop_result _ _ _ _ _ _ H)
        as [(_ & _ & Hall)|(Hb & _)]; [exact Hall | discriminate Hb].
    + apply GetPinByName_loop_none.
Qed.

Lemma GetPinByName_first_match_witness :
  GetPinByName (Some video_filter) PINDIR_OUTPUT (Some (L "Preview")) None =
    (true, Some (plain_pin 0xD003 PINDIR_OUTPUT (L "Preview")
                   [mkMediaType MEDIATYPE_Video])) /\
  GetPinByName (Some video_filter) PINDIR_INPUT (Some (L "Preview"))
    (Some tuner_pin) = (false, Some tuner_pin).
Proof.
  split.
  - apply (proj1 (GetPinByName_first_match video_filter S_OK
                    (snd (EnumPins video_filter)) PINDIR_OUTPUT
                    (Some (L "Preview")) None eq_refl eq_refl))
      with (pre := [plain_pin 0xD001 PINDIR_INPUT (L "Video In")
                      [mkMediaType MEDIATYPE_Video];
                    plain_pin 0xD002 PINDIR_OUTPUT (L "Capture")
                      [mkMediaType MEDIATYPE_Video]])
           (post := []).
    + reflexivity.
    + split; reflexivity.
    + split; reflexivity.
    + intros x [<-|[<-|[]]] [[_ Hd] [_ Hn]]; discriminate.
  - apply (proj2 (GetPinByName_first_match video_filter S_OK
                    (snd (EnumPins video_filter)) PINDIR_INPUT
                    (Some (L "Preview")) (Some tuner_pin) eq_refl eq_refl)).
    intros x [<-|[<-|[<-|[]]]] [[_ Hd] [_ Hn]]; discriminate.
Defined.

(** X2: with the name criterion unset [GetPinByName] returns the first pin
    whose direction query succeeds with the requested direction, without
    regard to the names of the pins, even of a pin whose name cannot be
    queried. *)
Theorem GetPinByName_unset_name :
  forall filter hr pre p post dir out,
    EnumPins filter = (hr, pre ++ p :: post) ->
    SUCCEEDED hr = true ->
    has_direction dir p ->
    (forall x, In x pre -> ~ has_direction dir x) ->
    GetPinByName (Some filter) dir None out = (true, Some p).
Proof.
  intros filter hr pre p post dir out Henum Hok Hd Hpre.
  unfold GetPinByName. rewrite Henum, FAILED_SUCCEEDED, Hok. simpl.
  apply GetPinByName_loop_first; [assumption | exact I |].
  intros x Hx [Hdx _]. now apply (Hpre x Hx).
Qed.

Lemma GetPinByName_unset_name_witness :
  FAILED (fst (QueryPinInfo nameless_output_pin)) = true /\
  GetPinByName (Some nameless_filter) PINDIR_OUTPUT None None =
    (true, Some nameless_output_pin).
Proof.
  split; [reflexivity|].
  apply (GetPinByName_unset_name nameless_filter S_OK
           [plain_pin 0x5101 PINDIR_INPUT (L "In") []] nameless_output_pin
           [plain_pin 0x5102 PINDIR_OUTPUT (L "Capture") []]
           PINDIR_OUTPUT None eq_refl eq_refl).
  - split; reflexivity.
  - intros x [<-|[]] [_ Hd]. discriminate Hd.
Defined.

(** ** Pin walkers: [GetPinByMedium] *)

Lemma GetPinMedium_loop_split :
  forall items m,
    GetPinMedium_loop items = (true, m) ->
    exists pre rest,
      items = pre ++ m :: rest /\
      (forall y, In y pre -> is_sentinel y) /\ ~ is_sentinel m.
Proof.
  induction items as [|x items IH]; intros m H; cbn [GetPinMedium_loop] in H.
  - discriminate.
  - destruct (negb (IsEqualGUID (clsMedium x) GUID_NULL) &&
              negb (IsEqualGUID (clsMedium x) KSMEDIUMSETID_Standard)) eqn:E.
    + injection H as <-. exists [], items.
      split; [reflexivity | split; [intros y [] | now apply sentinel_test]].
    + destruct (IH m H) as (pre & rest & -> & Hpre & Hm).
      exists (x :: pre), rest.
      split; [reflexivity | split; [|assumption]].
      intros y [<-|Hy]; [now apply sentinel_test_false | now apply Hpre].
Qed.

(** [GetPinMedium] succeeds with [x] exactly when [x] is the first real
    medium of the pin, whatever the medium of the caller held before. *)
Lemma GetPinMedium_true_iff :
  forall p medium0 x,
    GetPinMedium (Some p) medium0 = (true, x) <-> first_real_medium p x.
Proof.
  intros p medium0 x. unfold GetPinMedium, first_real_medium. split.
  - destruct (QueryInterface_IKsPin p) as [ksPin|]; [|discriminate].
    destruct (KsQueryMediums ksPin) as [hr items] eqn:Eq.
    rewrite FAILED_SUCCEEDED. destruct (SUCCEEDED hr) eqn:Eok; simpl;
      [|discriminate].
    intros H. apply GetPinMedium_loop_split in H.
    destruct H as (pre & rest & -> & Hpre & Hx).
    exists ksPin, pre, rest. rewrite Eq. simpl. auto.
  - intros (ksPin & pre & rest & -> & Hok & Hitems & Hpre & Hx).
    destruct (KsQueryMediums ksPin) as [hr items]. simpl in Hok, Hitems.
    subst items. rewrite FAILED_SUCCEEDED, Hok. simpl.
    now apply GetPinMedium_loop_first.
Qed.

Lemma first_real_medium_unique :
  forall p x y, first_real_medium p x -> first_real_medium p y -> x = y.
Proof.
  intros p x y Hx Hy.
  apply (GetPinMedium_true_iff p REGPINMEDIUM_zero) in Hx, Hy.
  congruence.
Qed.

Lemma first_real_medium_no_sentinel :
  forall p x, first_real_medium p x -> ~ is_sentinel x.
Proof. intros p x (_ & _ & _ & _ & _ & _ & _ & H). exact H. Qed.

(** The test made on each pin by [GetPinByMedium]. *)
Lemma medium_test :
  forall x medium got curMedium,
    GetPinMedium (Some x) REGPINMEDIUM_zero = (got, curMedium) ->
    (got && REGPINMEDIUM_memcmp_eq medium curMedium = true <->
     first_real_medium x medium).
Proof.
  intros x medium got curMedium E.
  rewrite andb_true_iff, REGPINMEDIUM_memcmp_eq_true,
    <- (GetPinMedium_true_iff x REGPINMEDIUM_zero), E.
  split.
  - intros [-> ->]. reflexivity.
  - intros H. injection H as -> ->. auto.
Qed.

Lemma GetPinByMedium_loop_result :
  forall pins medium out b r,
    GetPinByMedium_loop pins medium out = (b, r) ->
    (b = false /\ r = out /\
     forall x, In x pins -> ~ first_real_medium x medium) \/
    (b = true /\
     exists p, r = Some p /\ In p pins /\ first_real_medium p medium).
Proof.
  induction pins as [|x pins IH]; intros medium out b r H;
    cbn [GetPinByMedium_loop] in H.
  - injection H as <- <-. left. repeat split. intros x [].
  - destruct (GetPinMedium (Some x) REGPINMEDIUM_zero) as [got cur] eqn:Ex.
    pose proof (medium_test x medium got cur Ex) as Htest.
    destruct (got && REGPINMEDIUM_memcmp_eq medium cur).
    + injection H as <- <-. right. split; [reflexivity|].
      exists x. split; [reflexivity | split; [now left|]].
      now apply Htest.
    + destruct (IH medium out b r H)
        as [(-> & -> & Hall)|(-> & p & -> & Hin & Hp)].
      * left. repeat split. intros y [<-|Hy]; [|now apply Hall].
        intros Hy. apply Htest in Hy. discriminate.
      * right. split; [reflexivity|]. exists p.
        split; [reflexivity | split; [now right | assumption]].
Qed.

Lemma GetPinByMedium_loop_first :
  forall pre p post medium out,
    first_real_medium p medium ->
    (forall x, In x pre -> ~ first_real_medium x medium) ->
    GetPinByMedium_loop (pre ++ p :: post) medium out = (true, Some p).
Proof.
  induction pre as [|x pre IH]; intros p post medium out Hp Hpre;
    cbn [app GetPinByMedium_loop].
  - destruct (GetPinMedium (Some p) REGPINMEDIUM_zero) as [got cur] eqn:Ex.
    apply (medium_test p medium got cur Ex) in Hp. now rewrite Hp.
  - destruct (GetPinMedium (Some x) REGPINMEDIUM_zero) as [got cur] eqn:Ex.
    pose proof (medium_test x medium got cur Ex) as Htest.
    destruct (got && REGPINMEDIUM_memcmp_eq medium cur).
    + exfalso. apply (Hpre x (or_introl eq_refl)). now apply Htest.
    + apply IH; [assumption|]. intros y Hy. apply Hpre. now right.
Qed.

Lemma GetPinByMedium_loop_none :
  forall pins medium out,
    (forall x, In x pins -> ~ first_real_medium x medium) ->
    GetPinByMedium_loop pins medium out = (false, out).
Proof.
  induction pins as [|x pins IH]; intros medium out H;
    cbn [GetPinByMedium_loop]; [reflexivity|].
  destruct (GetPinMedium (Some x) REGPINMEDIUM_zero) as [got cur] eqn:Ex.
  pose proof (medium_test x medium got cur Ex) as Htest.
  destruct (got && REGPINMEDIUM_memcmp_eq medium cur).
  - exfalso. apply (H x (or_introl eq_refl)). now apply Htest.
  - apply IH. intros y Hy. apply H. now right.
Qed.

Lemma GetPinByMedium_none :
  forall filter medium out,
    (forall f x, filter = Some f -> In x (snd (EnumPins f)) ->
                 ~ first_real_medium x medium) ->
    GetPinByMedium filter medium out = (false, out).
Proof.
  intros [f|] medium out H; [|reflexivity].
  unfold GetPinByMedium. specialize (H f).
  destruct (EnumPins f) as [hr pins]. destruct (FAILED hr); [reflexivity|].
  apply GetPinByMedium_loop_none. intros x Hx. now apply H.
Qed.

(** X3: [GetPinByMedium] returns the first pin, in enumeration order, whose
    first real medium is the target; it returns false, the out pin
    untouched, exactly when no pin has the target as its first real
    medium. *)
Theorem GetPinByMedium_first_match :
  forall filter hr pins medium out,
    EnumPins filter = (hr, pins) ->
    SUCCEEDED hr = true ->
    (forall pre p post,
        pins = pre ++ p :: post ->
        first_real_medium p medium ->
        (forall x, In x pre -> ~ first_real_medium x medium) ->
        GetPinByMedium (Some filter) medium out = (true, Some p)) /\
    (GetPinByMedium (Some filter) medium out = (false, out) <->
     forall x, In x pins -> ~ first_real_medium x medium).
Proof.
  intros filter hr pins medium out Henum Hok.
  unfold GetPinByMedium. rewrite Henum, FAILED_SUCCEEDED, Hok. simpl. split.
  - intros pre p post -> Hp Hpre. now apply GetPinByMedium_loop_first.
  - split.
    + intros H.
      destruct (GetPinByMedium_loop_result _ _ _ _ _ H)
        as [(_ & _ & Hall)|(Hb & _)]; [exact Hall | discriminate Hb].
    + apply GetPinByMedium_loop_none.
Qed.

Lemma GetPinByMedium_first_match_witness :
  GetPinByMedium (Some crossbar_filter) medium_tuner None =
    (true, Some tuner_pin) /\
  GetPinByMedium (Some unlinked_filter) medium_tuner (Some tuner_pin) =
    (false, Some tuner_pin).
Proof.
  assert (Hs : forall m, ~ first_real_medium sentinel_pin m).
  { intros m H. apply (GetPinMedium_true_iff _ REGPINMEDIUM_zero) in H.
    discriminate H. }
  split.
  - apply (proj1 (GetPinByMedium_first_match crossbar_filter S_OK
                    [sentinel_pin; tuner_pin] medium_tuner None
                    eq_refl eq_refl))
      with (pre := [sentinel_pin]) (post := []).
    + reflexivity.
    + now apply (GetPinMedium_true_iff _ REGPINMEDIUM_zero).
    + intros x [<-|[]]. apply Hs.
  - apply (proj2 (GetPinByMedium_first_match unlinked_filter S_OK
                    [sentinel_pin] medium_tuner (Some tuner_pin)
                    eq_refl eq_refl)).
    intros x [<-|[]]. apply Hs.
Defined.

(** X4: a target medium whose class id is a sentinel is never found:
    [GetPinByMedium] returns false and leaves the out pin untouched,
    whatever the filter and whatever its pins report. *)
Theorem GetPinByMedium_sentinel_target :
  forall filter medium out,
    is_sentinel medium ->
    GetPinByMedium filter medium out = (false, out).
Proof.
  intros filter medium out Hs. apply GetPinByMedium_none.
  intros f x _ _ Hx. now apply (first_real_medium_no_sentinel x medium).
Qed.

Lemma GetPinByMedium_sentinel_target_witness :
  In medium_standard [medium_standard; medium_null] /\
  GetPinByMedium (Some unlinked_filter) medium_standard None = (false, None).
Proof.
  split; [now left|].
  apply (GetPinByMedium_sentinel_target (Some unlinked_filter)
           medium_standard None).
  right. reflexivity.
Defined.

(** X5: only the first real medium of a pin counts.  When every pin has a
    first real medium other than the target, [GetPinByMedium] returns
    false, even if some pin reports the target further down its list. *)
Theorem GetPinByMedium_first_real_medium_only :
  forall filter medium out,
    (forall p, In p (snd (EnumPins filter)) ->
               exists x, first_real_medium p x /\ x <> medium) ->
    GetPinByMedium (Some filter) medium out = (false, out).
Proof.
  intros filter medium out H. apply GetPinByMedium_none.
  intros f p Hf Hp Hm. injection Hf as <-.
  destruct (H p Hp) as (x & Hx & Hne).
  apply Hne. now apply (first_real_medium_unique p).
Qed.

Lemma GetPinByMedium_first_real_medium_only_witness :
  In medium_audio (snd (KsQueryMediums
                          (mkKsPin (S_OK, [medium_standard; medium_tuner;
                                           medium_audio])))) /\
  GetPinByMedium (Some two_medium_filter) medium_audio None = (false, None).
Proof.
  split; [right; right; now left|].
  apply (GetPinByMedium_first_real_medium_only two_medium_filter
           medium_audio None).
  intros p [<-|[]]. exists medium_tuner. split; [|discriminate].
  now apply (GetPinMedium_true_iff _ REGPINMEDIUM_zero).
Defined.

(** ** Pin predicates, completed *)

Lemma PinConfigHasMajorType_loop_true :
  forall config type n i0,
    PinConfigHasMajorType_loop config type n i0 = Returns true ->
    exists i mt,
      i0 <= i < i0 + Z.of_nat n /\
      SUCCEEDED (fst (GetStreamCaps config i)) = true /\
      snd (GetStreamCaps config i) = Some mt /\
      majortype mt = type /\
      fetches_store config i0 i (fun _ => True).
Proof.
  intros config type n. induction n as [|n IH]; intros i0 H;
    cbn [PinConfigHasMajorType_loop] in H; [discriminate|].
  assert (Hrest :
            PinConfigHasMajorType_loop config type n (i0 + 1) = Returns true ->
            (SUCCEEDED (fst (GetStreamCaps config i0)) = true ->
             exists mt, snd (GetStreamCaps config i0) = Some mt) ->
            exists i mt,
              i0 <= i < i0 + Z.of_nat (S n) /\
              SUCCEEDED (fst (GetStreamCaps config i)) = true /\
              snd (GetStreamCaps config i) = Some mt /\
              majortype mt = type /\
              fetches_store config i0 i (fun _ => True)).
  { intros Hn Hhere. destruct (IH (i0 + 1) Hn) as (i & mt & Hi & Hs & Hmt & Hm & Hb).
    exists i, mt. repeat split; auto; try lia.
    intros j Hj Hsj. destruct (Z.eq_dec j i0) as [->|Hne].
    - destruct (Hhere Hsj) as [mt0 Hmt0]. now exists mt0.
    - apply Hb; [lia | assumption]. }
  destruct (GetStreamCaps config i0) as [hr0 mt0] eqn:E0. cbn [fst snd] in Hrest.
  destruct (SUCCEEDED hr0) eqn:Es.
  - destruct mt0 as [mt0|]; [|discriminate].
    destruct (IsEqualGUID (majortype mt0) type) eqn:Em.
    + apply IsEqualGUID_true in Em. exists i0, mt0. rewrite E0. cbn [fst snd].
      repeat split; auto; try lia. intros j Hj. lia.
    + apply Hrest; [assumption|]. intros _. now exists mt0.
  - apply Hrest; [assumption|]. discriminate.
Qed.

Lemma PinConfigHasMajorType_loop_false :
  forall config type n i0,
    PinConfigHasMajorType_loop config type n i0 = Returns false <->
    fetches_store config i0 (i0 + Z.of_nat n)
      (fun mt => majortype mt <> type).
Proof.
  intros config type n. induction n as [|n IH]; intros i0;
    cbn [PinConfigHasMajorType_loop].
  - split; [|reflexivity]. intros _ j Hj. lia.
  - assert (Hsplit :
              fetches_store config i0 (i0 + Z.of_nat (S n))
                (fun mt => majortype mt <> type) <->
              (SUCCEEDED (fst (GetStreamCaps config i0)) = true ->
               exists mt, snd (GetStreamCaps config i0) = Some mt /\
                          majortype mt <> type) /\
              fetches_store config (i0 + 1) (i0 + 1 + Z.of_nat n)
                (fun mt => majortype mt <> type)).
    { unfold fetches_store. split.
      - intros H. split; [apply H; lia|]. intros j Hj. apply H. lia.
      - intros [Hhere Hrest] j Hj.
        destruct (Z.eq_dec j i0) as [->|Hne]; [exact Hhere|].
        apply Hrest. lia. }
    rewrite Hsplit, <- IH.
    destruct (GetStreamCaps config i0) as [hr0 mt0]. cbn [fst snd].
    destruct (SUCCEEDED hr0).
    + destruct mt0 as [mt0|].
      * destruct (IsEqualGUID (majortype mt0) type) eqn:Em.
        -- apply IsEqualGUID_true in Em. split; [discriminate|].
           intros [H _]. destruct (H eq_refl) as (mt & Hmt & Hne).
           injection Hmt as <-. contradiction.
        -- apply IsEqualGUID_false in Em. split.
           ++ intros H. split; [|exact H]. intros _. now exists mt0.
           ++ intros [_ H]. exact H.
      * split; [discriminate|].
        intros [H _]. destruct (H eq_refl) as (mt & Hmt & _). discriminate.
    + split.
      * intros H. split; [discriminate | exact H].
      * intros [_ H]. exact H.
Qed.

Lemma PinConfigHasMajorType_true :
  forall pin T,
    PinConfigHasMajorType pin T = Returns true <-> has_capability pin T.
Proof.
  intros pin T. unfold PinConfigHasMajorType, has_capability. split.
  - destruct (QueryInterface_IAMStreamConfig pin) as [config|];
      [|discriminate].
    destruct (GetNumberOfCapabilities config) as [hr [count size]] eqn:En.
    rewrite FAILED_SUCCEEDED. destruct (SUCCEEDED hr) eqn:Eok; cbn [negb];
      [|discriminate].
    destruct (Z.ltb_spec size 0) as [Hneg|Hsize]; [discriminate|].
    intros H. apply PinConfigHasMajorType_loop_true in H.
    destruct H as (i & mt & Hi & Hs & Hmt & Hm & Hb).
    exists config, i, mt. rewrite En. cbn [fst snd].
    repeat split; auto; lia.
  - intros (config & i & mt & -> & Hok & Hsize & Hi & Hs & Hmt & Hm & Hb).
    destruct (GetNumberOfCapabilities config) as [hr [count size]].
    cbn [fst snd] in Hok, Hsize, Hi. rewrite FAILED_SUCCEEDED, Hok.
    cbn [negb]. rewrite (proj2 (Z.ltb_ge size 0) Hsize).
    apply (PinConfigHasMajorType_loop_found config T _ 0 i mt); auto.
    lia.
Qed.

Lemma PinConfigHasMajorType_false :
  forall pin T,
    PinConfigHasMajorType pin T = Returns false <-> no_capability pin T.
Proof.
  intros pin T. unfold PinConfigHasMajorType, no_capability.
  destruct (QueryInterface_IAMStreamConfig pin) as [config|];
    [|split; [now left | reflexivity]].
  destruct (GetNumberOfCapabilities config) as [hr [count size]] eqn:En.
  assert (Hrange :
            fetches_store config 0 (0 + Z.of_nat (Z.to_nat count))
              (fun mt => majortype mt <> T) <->
            fetches_store config 0 count (fun mt => majortype mt <> T)).
  { unfold fetches_store. split; intros H j Hj; apply H; lia. }
  destruct (FAILED hr) eqn:Ef.
  - split; [|reflexivity]. intros _. right. exists config.
    rewrite En. cbn [fst]. auto.
  - destruct (Z.ltb_spec size 0) as [Hneg|Hsize].
    + split; [discriminate|].
      intros [H|(c & Hc & [H|[H _]])]; [discriminate | |];
        injection Hc as <-; rewrite En in H; cbn [fst snd] in H;
        [congruence | lia].
    + rewrite PinConfigHasMajorType_loop_false, Hrange. split.
      * intros H. right. exists config. rewrite En. cbn [fst snd]. auto.
      * intros [H|(c & Hc & [H|[_ H]])]; [discriminate | |];
          injection Hc as <-; rewrite En in H; cbn [fst snd] in H;
          [congruence | exact H].
Qed.

(** X6: [PinHasMajorType] returns true exactly when the capability check
    finds the type (the buffer size is not negative, a capability of the
    type is fetched at an index below the count, and every successful
    fetch before it stored a media type), or the capability check runs to
    its end without the type and the first media type the pin enumerates
    has it; media types after the first are never looked at. *)
Theorem PinHasMajorType_iff :
  forall pin T,
    PinHasMajorType pin T = Returns true <->
    has_capability pin T \/ (no_capability pin T /\ offers_first pin T).
Proof.
  intros pin T.
  pose proof (PinConfigHasMajorType_true pin T) as Htrue.
  pose proof (PinConfigHasMajorType_false pin T) as Hfalse.
  unfold PinHasMajorType.
  destruct (PinConfigHasMajorType pin T) as [[|]| |].
  - split; [|reflexivity]. intros _. left. now apply Htrue.
  - assert (Hno : no_capability pin T) by now apply Hfalse.
    assert (Hcap : ~ has_capability pin T).
    { intros H. apply Htrue in H. discriminate. }
    unfold offers_first.
    destruct (EnumMediaTypes pin) as [hr mediaEnum]. cbn [fst snd].
    rewrite FAILED_SUCCEEDED. destruct (SUCCEEDED hr); cbn [negb].
    + destruct mediaEnum as [|mt rest].
      * split; [discriminate|].
        intros [H|[_ [_ (mt & rest & H & _)]]]; [tauto | discriminate].
      * split.
        -- intros H. injection H as H. apply IsEqualGUID_true in H.
           right. split; [assumption|]. split; [reflexivity|].
           now exists mt, rest.
        -- intros [H|[_ [_ (mt' & rest' & H & Hm)]]]; [tauto|].
           injection H as -> _. f_equal. now apply IsEqualGUID_true.
    + split; [discriminate|].
      intros [H|[_ [H _]]]; [tauto | discriminate].
  - split; [discriminate|].
    intros [H|[H _]]; [apply Htrue in H | apply Hfalse in H]; discriminate.
  - split; [discriminate|].
    intros [H|[H _]]; [apply Htrue in H | apply Hfalse in H]; discriminate.
Qed.

Lemma PinHasMajorType_iff_witness :
  PinHasMajorType audio_then_video_pin MEDIATYPE_Audio = Returns true /\
  PinHasMajorType audio_then_video_pin MEDIATYPE_Video <> Returns true.
Proof.
  split.
  - apply (proj2 (PinHasMajorType_iff audio_then_video_pin MEDIATYPE_Audio)).
    right. split; [now left|]. split; [reflexivity|].
    exists (mkMediaType MEDIATYPE_Audio), [mkMediaType MEDIATYPE_Video].
    split; reflexivity.
  - intros H.
    apply (proj1 (PinHasMajorType_iff audio_then_video_pin MEDIATYPE_Video))
      in H.
    destruct H as [(config & _ & _ & Hc & _)|(_ & _ & mt & rest & Hl & Hm)].
    + discriminate Hc.
    + injection Hl as <- _. discriminate Hm.
Defined.

Lemma PinIsCategory_query_failure_witness :
  PinIsCategory (Some uncategorised_pin) PIN_CATEGORY_CAPTURE = false.
Proof.
  apply (PinIsCategory_query_failure uncategorised_pin
           (mkPropertySet (fun _ _ => (E_PROP_ID_UNSUPPORTED, GUID_NULL)))
           PIN_CATEGORY_CAPTURE).
  - reflexivity.
  - reflexivity.
  - discriminate.
Defined.

(** ** Pin walkers: what they return *)

Lemma GetFilterPin_loop_result :
  forall pins type category dir out b r,
    GetFilterPin_loop pins type category dir out = Returns (b, r) ->
    (b = false /\ r = out) \/
    (b = true /\
     exists p, r = Some p /\ In p pins /\ satisfies_all type category dir p).
Proof.
  induction pins as [|x pins IH]; intros type category dir out b r H;
    cbn [GetFilterPin_loop] in H.
  - injection H as <- <-. now left.
  - destruct (PinMatches x type category dir) as [[|]| |] eqn:E;
      [| | discriminate | discriminate].
    + injection H as <- <-. right. split; [reflexivity|].
      exists x. split; [reflexivity | split; [now left|]].
      now apply PinMatches_true.
    + destruct (IH type category dir out b r H)
        as [(-> & ->)|(-> & p & -> & Hin & Hp)].
      * now left.
      * right. split; [reflexivity|]. exists p.
        split; [reflexivity | split; [now right | assumption]].
Qed.

(** X8: whenever a pin walker returns false the out pin is left as it was;
    whenever it returns true the out pin is a pin of the enumeration of the
    filter, one of which the predicates of the walker hold.  For
    [GetFilterPin] this is said of the calls that return. *)
Theorem pin_walkers_result :
  forall filter type category dir name medium out,
    (forall b r,
        GetFilterPin filter type category dir out = Returns (b, r) ->
        (b = false -> r = out) /\
        (b = true ->
         exists f p, filter = Some f /\ r = Some p /\
                     In p (snd (EnumPins f)) /\
                     satisfies_all type category dir p)) /\
    (forall b r,
        GetPinByName filter dir name out = (b, r) ->
        (b = false -> r = out) /\
        (b = true ->
         exists f p, filter = Some f /\ r = Some p /\
                     In p (snd (EnumPins f)) /\
                     has_direction dir p /\ has_name name p)) /\
    (forall b r,
        GetPinByMedium filter medium out = (b, r) ->
        (b = false -> r = out) /\
        (b = true ->
         exists f p, filter = Some f /\ r = Some p /\
                     In p (snd (EnumPins f)) /\
                     first_real_medium p medium)).
Proof.
  intros filter type category dir name medium out.
  unfold GetFilterPin, GetPinByName, GetPinByMedium.
  destruct filter as [f|];
    [|repeat split; intros; congruence].
  destruct (EnumPins f) as [hr pins] eqn:Ee.
  destruct (FAILED hr); [repeat split; intros; congruence|].
  split; [|split]; intros b r H.
  - destruct (GetFilterPin_loop_result _ _ _ _ _ _ _ H)
      as [(-> & ->)|(-> & p & -> & Hin & Hp)].
    + split; [reflexivity | discriminate].
    + split; [discriminate|]. intros _. exists f, p. rewrite Ee.
      split; [reflexivity | split; [reflexivity | split; assumption]].
  - destruct (GetPinByName_loop_result _ _ _ _ _ _ H)
      as [(-> & -> & _)|(-> & p & -> & Hin & Hd & Hn)].
    + split; [reflexivity | discriminate].
    + split; [discriminate|]. intros _. exists f, p. rewrite Ee.
      split; [reflexivity | split; [reflexivity|]].
      split; [assumption | split; assumption].
  - destruct (GetPinByMedium_loop_result _ _ _ _ _ H)
      as [(-> & -> & _)|(-> & p & -> & Hin & Hp)].
    + split; [reflexivity | discriminate].
    + split; [discriminate|]. intros _. exists f, p. rewrite Ee.
      split; [reflexivity | split; [reflexivity | split; assumption]].
Qed.

Lemma pin_walkers_result_witness :
  (exists f p,
      Some video_filter = Some f /\
      snd (GetPinByName (Some video_filter) PINDIR_OUTPUT None None) =
        Some p /\
      In p (snd (EnumPins f)) /\
      has_direction PINDIR_OUTPUT p /\ has_name None p) /\
  match GetFilterPin (Some inputs_only_filter) MEDIATYPE_Video
          PIN_CATEGORY_CAPTURE PINDIR_OUTPUT (Some tuner_pin) with
  | Returns (b, r) => b = false /\ r = Some tuner_pin
  | _ => False
  end.
Proof.
  split.
  - apply (proj1 (proj2 (pin_walkers_result (Some video_filter)
                           MEDIATYPE_Video PIN_CATEGORY_CAPTURE
                           PINDIR_OUTPUT None medium_tuner None))
             true
             (snd (GetPinByName (Some video_filter) PINDIR_OUTPUT None None)));
      reflexivity.
  - destruct (GetFilterPin (Some inputs_only_filter) MEDIATYPE_Video
                PIN_CATEGORY_CAPTURE PINDIR_OUTPUT (Some tuner_pin))
      as [[b r]| |] eqn:E; [| discriminate E | discriminate E].
    assert (Hb : b = false) by (injection E as <- _; reflexivity).
    split; [exact Hb|].
    apply (proj1 (pin_walkers_result (Some inputs_only_filter)
                    MEDIATYPE_Video PIN_CATEGORY_CAPTURE PINDIR_OUTPUT None
                    medium_tuner (Some tuner_pin))
             b r E).
    exact Hb.
Defined.

(** ** Device-filter resolver, completed *)

(** The visitor never alters the criteria; the filter it records, if any,
    is the candidate's, and then the candidate's name met the criterion. *)
Lemma GetDeviceCallback_cases :
  forall info f name pth,
    info_name (snd (GetDeviceCallback info f name pth)) = info_name info /\
    info_path (snd (GetDeviceCallback info f name pth)) = info_path info /\
    (info_filter (snd (GetDeviceCallback info f name pth)) =
       info_filter info \/
     (info_filter (snd (GetDeviceCallback info f name pth)) = f /\
      forall n, info_name info = Some n -> name = n)).
Proof.
  intros [f0 iname ipath] f name pth. unfold GetDeviceCallback.
  cbn [info_name info_path info_filter].
  destruct iname as [n|].
  - destruct (wcscmp name n =? 0) eqn:E; cbn [negb].
    + apply wcscmp_eqb_true in E.
      match goal with
      | |- context [if ?c then _ else _] => destruct c
      end; cbn [snd info_name info_path info_filter];
        (split; [reflexivity | split; [reflexivity|]]);
        right; (split; [reflexivity|]); intros m Hm; congruence.
    + cbn [snd info_name info_path info_filter]. auto.
  - match goal with
    | |- context [if ?c then _ else _] => destruct c
    end; cbn [snd info_name info_path info_filter];
      (split; [reflexivity | split; [reflexivity|]]);
      right; (split; [reflexivity|]); intros m Hm; discriminate.
Qed.

(** Where the filter recorded at the end of a visit comes from. *)
Lemma EnumDevices_visit_origin :
  forall devs info,
    info_filter (fst (EnumDevices_visit GetDeviceCallback devs info)) =
      info_filter info \/
    exists d,
      In d devs /\
      info_filter (fst (EnumDevices_visit GetDeviceCallback devs info)) =
        Some (dev_filter d) /\
      forall n, info_name info = Some n -> dev_name d = n.
Proof.
  induction devs as [|d devs IH]; intros info; [now left|].
  cbn [EnumDevices_visit].
  destruct (GetDeviceCallback_cases info (Some (dev_filter d)) (dev_name d)
              (dev_path d)) as (Hn & _ & Hf).
  destruct (GetDeviceCallback info (Some (dev_filter d)) (dev_name d)
              (dev_path d)) as [continue info'].
  cbn [snd] in Hn, Hf.
  assert (Hhere : info_filter info' = info_filter info \/
                  exists d0, In d0 (d :: devs) /\
                    info_filter info' = Some (dev_filter d0) /\
                    forall n, info_name info = Some n -> dev_name d0 = n).
  { destruct Hf as [Hf|[Hf Hname]]; [now left|].
    right. exists d. split; [now left | split; assumption]. }
  destruct continue; [|exact Hhere].
  specialize (IH info').
  destruct (EnumDevices_visit GetDeviceCallback devs info') as [final seen].
  cbn [fst] in *.
  destruct IH as [IH|(d0 & Hin & Hd0 & Hname)].
  - rewrite IH. exact Hhere.
  - right. exists d0. split; [now right | split; [assumption|]].
    intros n Hinfo. apply Hname. now rewrite Hn.
Qed.

(** X10: when [GetDeviceFilter] returns false, [*out] is left as it was;
    when it returns true, [*out] is the filter of one of the registered
    candidates, and the name of that candidate is the name criterion when
    one is set. *)
Theorem GetDeviceFilter_result :
  forall registered type name path out b r,
    GetDeviceFilter registered type name path out = (b, r) ->
    (b = false -> r = out) /\
    (b = true ->
     exists devs d,
       registered type = Some devs /\ In d devs /\
       r = Some (dev_filter d) /\
       forall n, name = Some n -> dev_name d = n).
Proof.
  intros registered type name path out b r.
  unfold GetDeviceFilter, EnumDevices.
  destruct (registered type) as [devs|]; cbn [negb];
    [|intros H; injection H as <- <-; split; [reflexivity | discriminate]].
  destruct (EnumDevices_visit_origin devs (mkInfo None name path))
    as [Hnone|(d & Hin & Hd & Hname)]; cbn [info_filter info_name] in *.
  - rewrite Hnone. intros H. injection H as <- <-.
    split; [reflexivity | discriminate].
  - rewrite Hd. intros H. injection H as <- <-.
    split; [discriminate|]. intros _. exists devs, d. auto.
Qed.

Lemma GetDeviceFilter_result_witness :
  (exists devs d,
      three_cameras CLSID_VideoInputDeviceCategory = Some devs /\
      In d devs /\
      snd (GetDeviceFilter three_cameras CLSID_VideoInputDeviceCategory
             (Some (L "Cam1")) None None) = Some (dev_filter d) /\
      forall n, Some (L "Cam1") = Some n -> dev_name d = n) /\
  snd (GetDeviceFilter three_cameras CLSID_VideoInputDeviceCategory
         (Some (L "Cam3")) None (Some filterA)) = Some filterA.
Proof.
  split.
  - apply (proj2 (GetDeviceFilter_result three_cameras
                    CLSID_VideoInputDeviceCategory (Some (L "Cam1")) None None
                    true
                    (snd (GetDeviceFilter three_cameras
                            CLSID_VideoInputDeviceCategory (Some (L "Cam1"))
                            None None))
                    eq_refl)).
    reflexivity.
  - apply (proj1 (GetDeviceFilter_result three_cameras
                    CLSID_VideoInputDeviceCategory (Some (L "Cam3")) None
                    (Some filterA) false
                    (snd (GetDeviceFilter three_cameras
                            CLSID_VideoInputDeviceCategory (Some (L "Cam3"))
                            None (Some filterA)))
                    eq_refl)).
    reflexivity.
Defined.

Lemma last_cons :
  forall (A : Type) (l : list A) (a d : A), last (a :: l) d = last l a.
Proof.
  intros A l. induction l as [|x l IH]; intros a d; [reflexivity|].
  change (last (a :: x :: l) d) with (last (x :: l) d).
  now rewrite !IH.
Qed.

Section UnsetName.
Variable path : option wstring.

(** With the name criterion unset every candidate is recorded; the visit
    goes on unless the candidate carries the path looked for. *)
Lemma GetDeviceCallback_unnamed_continue :
  forall f0 d,
    ~ path_matches path d ->
    GetDeviceCallback (mkInfo f0 None path) (Some (dev_filter d))
      (dev_name d) (dev_path d) =
      (true, mkInfo (Some (dev_filter d)) None path).
Proof.
  intros f0 d Hno. unfold GetDeviceCallback, path_matches in *.
  cbn [info_name info_path].
  destruct (dev_path d) as [p|]; [|reflexivity].
  destruct path as [ip|]; [|reflexivity].
  destruct (Z.eqb_spec (wcscmp p ip) 0) as [E|_]; [|reflexivity].
  apply wcscmp_zero_eq in E. subst. exfalso. apply Hno. now exists ip.
Qed.

Lemma GetDeviceCallback_unnamed_stop :
  forall f0 d,
    path_matches path d ->
    GetDeviceCallback (mkInfo f0 None path) (Some (dev_filter d))
      (dev_name d) (dev_path d) =
      (false, mkInfo (Some (dev_filter d)) None path).
Proof.
  intros f0 d (p & Hp & Hd). unfold GetDeviceCallback.
  cbn [info_name info_path]. rewrite Hd, Hp, wcscmp_refl. reflexivity.
Qed.

(** Over candidates without the path the visit runs to the end and keeps
    the last of them. *)
Lemma EnumDevices_visit_unnamed_all :
  forall devs f0,
    (forall x, In x devs -> ~ path_matches path x) ->
    EnumDevices_visit GetDeviceCallback devs (mkInfo f0 None path) =
      (mkInfo (last (map (fun d => Some (dev_filter d)) devs) f0) None path,
       devs).
Proof.
  induction devs as [|d devs IH]; intros f0 H; [reflexivity|].
  cbn [EnumDevices_visit].
  rewrite GetDeviceCallback_unnamed_continue by (apply H; now left).
  rewrite IH by (intros x Hx; apply H; now right).
  cbn [map]. now rewrite last_cons.
Qed.

(** The visit stops at the first candidate with the path. *)
Lemma EnumDevices_visit_unnamed_stop :
  forall pre d post f0,
    path_matches path d ->
    (forall x, In x pre -> ~ path_matches path x) ->
    EnumDevices_visit GetDeviceCallback (pre ++ d :: post)
      (mkInfo f0 None path) =
      (mkInfo (Some (dev_filter d)) None path, pre ++ [d]).
Proof.
  induction pre as [|x pre IH]; intros d post f0 Hd Hpre;
    cbn [app EnumDevices_visit].
  - now rewrite GetDeviceCallback_unnamed_stop.
  - rewrite GetDeviceCallback_unnamed_continue by (apply Hpre; now left).
    rewrite IH; [reflexivity | assumption |].
    intros y Hy. apply Hpre. now right.
Qed.

End UnsetName.

(** X9: with the name criterion unset every candidate is a name match.  The
    traversal stops at the first candidate that carries the set path, which
    is returned; when no candidate does (in particular when the path is
    unset too) every candidate is visited and the last registered one is
    returned; not-found is returned exactly when the class has no
    candidate. *)
Theorem GetDeviceFilter_unset_name :
  forall registered type devs path out,
    registered type = Some devs ->
    (forall pre d post,
        devs = pre ++ d :: post ->
        path_matches path d ->
        (forall x, In x pre -> ~ path_matches path x) ->
        GetDeviceFilter_visited registered type None path = pre ++ [d] /\
        GetDeviceFilter registered type None path out =
          (true, Some (dev_filter d))) /\
    ((forall x, In x devs -> ~ path_matches path x) ->
     GetDeviceFilter_visited registered type None path = devs /\
     forall pre d,
       devs = pre ++ [d] ->
       GetDeviceFilter registered type None path out =
         (true, Some (dev_filter d))) /\
    (GetDeviceFilter registered type None path out = (false, out) <->
     devs = []).
Proof.
  intros registered type devs path out Hreg.
  unfold GetDeviceFilter, GetDeviceFilter_visited, EnumDevices.
  rewrite Hreg. cbn [negb]. split; [|split].
  - intros pre d post -> Hd Hpre.
    rewrite (EnumDevices_visit_unnamed_stop path pre d post None Hd Hpre).
    split; reflexivity.
  - intros Hnone.
    rewrite (EnumDevices_visit_unnamed_all path devs None Hnone).
    split; [reflexivity|].
    intros pre d ->. cbn [fst info_filter].
    rewrite map_app. cbn [map]. now rewrite last_last.
  - split.
    + intros H. destruct devs as [|d devs]; [reflexivity|]. exfalso.
      cbn [EnumDevices_visit] in H.
      destruct (GetDeviceCallback_cases (mkInfo None None path)
                  (Some (dev_filter d)) (dev_name d) (dev_path d))
        as (Hn & _ & Hf).
      destruct (GetDeviceCallback (mkInfo None None path)
                  (Some (dev_filter d)) (dev_name d) (dev_path d))
        as [continue info'] eqn:Ecb.
      cbn [snd info_name info_filter] in Hn, Hf.
      assert (Hrec : info_filter info' = Some (dev_filter d)).
      { unfold GetDeviceCallback in Ecb. cbn [info_name info_path] in Ecb.
        match type of Ecb with
        | context [if ?c then _ else _] => destruct c
        end; injection Ecb as _ <-; reflexivity. }
      destruct continue.
      * destruct (EnumDevices_visit_origin devs info')
          as [Hsame|(d0 & _ & Hd0 & _)];
          destruct (EnumDevices_visit GetDeviceCallback devs info')
            as [final seen]; cbn [fst] in *.
        -- rewrite Hsame, Hrec in H. discriminate H.
        -- rewrite Hd0 in H. discriminate H.
      * cbn [fst] in H. rewrite Hrec in H. discriminate H.
    + intros ->. reflexivity.
Qed.

Lemma GetDeviceFilter_unset_name_witness :
  (GetDeviceFilter_visited three_cameras CLSID_VideoInputDeviceCategory
     None None = [cam1A; cam1B; cam2C] /\
   GetDeviceFilter three_cameras CLSID_VideoInputDeviceCategory None None
     None = (true, Some filterC)) /\
  (GetDeviceFilter_visited three_cameras CLSID_VideoInputDeviceCategory
     None (Some (L "B")) = [cam1A; cam1B] /\
   GetDeviceFilter three_cameras CLSID_VideoInputDeviceCategory None
     (Some (L "B")) None = (true, Some filterB)).
Proof.
  split.
  - destruct (GetDeviceFilter_unset_name three_cameras
                CLSID_VideoInputDeviceCategory [cam1A; cam1B; cam2C] None
                None eq_refl) as (_ & Hall & _).
    destruct Hall as [Hseen Hret].
    + intros x _ (p & Hp & _). discriminate Hp.
    + split; [exact Hseen|]. now apply (Hret [cam1A; cam1B] cam2C).
  - destruct (GetDeviceFilter_unset_name three_cameras
                CLSID_VideoInputDeviceCategory [cam1A; cam1B; cam2C]
                (Some (L "B")) None eq_refl) as (Hstop & _).
    apply (Hstop [cam1A] cam1B [cam2C]); [reflexivity | |].
    + exists (L "B"). split; reflexivity.
    + intros x [<-|[]] (p & Hp & Hd). injection Hp as <-. discriminate Hd.
Defined.

(** ** Medium cross-reference resolver, completed *)

Lemma GetFilterByMediumFromMoniker_result :
  forall moniker medium out b r,
    GetFilterByMediumFromMoniker moniker medium out = (b, r) ->
    (b = false /\ r = out) \/
    (b = true /\
     exists f,
       SUCCEEDED (fst (BindToObject moniker)) = true /\
       snd (BindToObject moniker) = Some f /\
       r = Some f /\ exposes_medium f medium).
Proof.
  intros moniker medium out b r. unfold GetFilterByMediumFromMoniker.
  destruct (BindToObject moniker) as [hr curFilter]. cbn [fst snd].
  destruct (SUCCEEDED hr);
    [|intros H; injection H as <- <-; now left].
  destruct (GetPinByMedium curFilter medium None) as [found pin] eqn:E.
  destruct found; intros H; injection H as <- <-; [|now left].
  right. split; [reflexivity|].
  destruct curFilter as [f|]; [|discriminate E].
  exists f. repeat split.
  - apply (GetPinByMedium_exposes f medium None). now rewrite E.
  - apply (GetPinByMedium_exposes f medium None). now rewrite E.
Qed.

Lemma GetFilterByMedium_loop_result :
  forall monikers medium out b r,
    GetFilterByMedium_loop monikers medium out = (b, r) ->
    (b = false /\ r = out) \/
    (b = true /\
     exists m f,
       In m monikers /\
       SUCCEEDED (fst (BindToObject m)) = true /\
       snd (BindToObject m) = Some f /\
       r = Some f /\ exposes_medium f medium).
Proof.
  induction monikers as [|m monikers IH]; intros medium out b r H;
    cbn [GetFilterByMedium_loop] in H.
  - injection H as <- <-. now left.
  - destruct (GetFilterByMediumFromMoniker m medium out) as [found f'] eqn:E.
    apply GetFilterByMediumFromMoniker_result in E.
    destruct E as [(-> & ->)|(-> & f & Hok & Hf & -> & Hexp)].
    + destruct (IH medium out b r H)
        as [(-> & ->)|(-> & m0 & f & Hin & Hrest)].
      * now left.
      * right. split; [reflexivity|]. exists m0, f.
        split; [now right | exact Hrest].
    + injection H as <- <-. right. split; [reflexivity|]. exists m, f.
      split; [now left | auto].
Qed.

(** X11: [GetFilterByMedium] returns false with [*filter] untouched when
    the device enumerator or the class enumerator cannot be created; when
    it returns at all, false leaves [*filter] as it was, and true stores
    the filter instantiated from one of the enumerated monikers, a filter
    on which [GetPinByMedium] for the same medium succeeds. *)
Theorem GetFilterByMedium_result :
  forall cci id medium out,
    (FAILED (fst cci) = true ->
     GetFilterByMedium cci id medium out = Some (false, out)) /\
    (forall deviceEnum,
        SUCCEEDED (fst cci) = true ->
        snd cci = Some deviceEnum ->
        FAILED (fst (CreateClassEnumerator deviceEnum id)) = true ->
        GetFilterByMedium cci id medium out = Some (false, out)) /\
    (forall b r,
        GetFilterByMedium cci id medium out = Some (b, r) ->
        (b = false -> r = out) /\
        (b = true ->
         exists deviceEnum monikers m f,
           snd cci = Some deviceEnum /\
           snd (CreateClassEnumerator deviceEnum id) = Some monikers /\
           In m monikers /\
           SUCCEEDED (fst (BindToObject m)) = true /\
           snd (BindToObject m) = Some f /\
           r = Some f /\
           forall pin, fst (GetPinByMedium (Some f) medium pin) = true)).
Proof.
  intros [hr0 deviceEnum] id medium out. unfold GetFilterByMedium.
  cbn [fst snd]. split; [|split].
  - intros ->. reflexivity.
  - intros de Hok -> Hf. rewrite (FAILED_SUCCEEDED hr0), Hok. cbn [negb].
    destruct (CreateClassEnumerator de id) as [hr enumMoniker].
    cbn [fst] in Hf. now rewrite Hf.
  - intros b r.
    destruct (FAILED hr0);
      [intros H; injection H as <- <-; split; [reflexivity | discriminate]|].
    destruct deviceEnum as [de|]; [|discriminate].
    destruct (CreateClassEnumerator de id) as [hr enumMoniker] eqn:Ec.
    destruct (FAILED hr);
      [intros H; injection H as <- <-; split; [reflexivity | discriminate]|].
    destruct enumMoniker as [monikers|]; [|discriminate].
    intros H. injection H as H.
    apply GetFilterByMedium_loop_result in H.
    destruct H as [(-> & ->)|(-> & m & f & Hin & Hok & Hf & -> & Hexp)].
    + split; [reflexivity | discriminate].
    + split; [discriminate|]. intros _.
      exists de, monikers, m, f. rewrite Ec. cbn [snd].
      repeat split; try assumption.
      intros pin. now apply GetPinByMedium_exposes.
Qed.

Lemma GetFilterByMedium_result_witness :
  GetFilterByMedium (E_FAIL, None) CLSID_AudioInputDeviceCategory
    medium_tuner (Some filterA) = Some (false, Some filterA) /\
  fst (GetPinByMedium (Some crossbar_filter) medium_tuner None) = true.
Proof.
  split.
  - apply (proj1 (GetFilterByMedium_result (E_FAIL, None)
                    CLSID_AudioInputDeviceCategory medium_tuner
                    (Some filterA))).
    reflexivity.
  - destruct (proj2 (proj2 (GetFilterByMedium_result
                              (S_OK, Some sample_deviceEnum)
                              CLSID_AudioInputDeviceCategory medium_tuner
                              None))
                true (Some crossbar_filter) eq_refl)
      as [_ Hfound].
    destruct (Hfound eq_refl)
      as (de & monikers & m & f & _ & _ & _ & _ & _ & Hf & Hpin).
    injection Hf as <-. apply Hpin.
Defined.

(** X12: a target medium whose class id is a sentinel is never resolved:
    whenever [GetFilterByMedium] returns for such a target, it returns
    false and leaves [*filter] as it was. *)
Theorem GetFilterByMedium_sentinel_target :
  forall cci id medium out r,
    is_sentinel medium ->
    GetFilterByMedium cci id medium out = Some r ->
    r = (false, out).
Proof.
  intros [hr0 deviceEnum] id medium out [b r] Hs.
  unfold GetFilterByMedium.
  destruct (FAILED hr0); [congruence|].
  destruct deviceEnum as [de|]; [|discriminate].
  destruct (CreateClassEnumerator de id) as [hr enumMoniker].
  destruct (FAILED hr); [congruence|].
  destruct enumMoniker as [monikers|]; [|discriminate].
  intros H. injection H as H.
  apply GetFilterByMedium_loop_result in H.
  destruct H as [(-> & ->)|(_ & m & f & _ & _ & _ & _ & _ & p & _ & Hp)];
    [reflexivity|].
  exfalso. apply GetPinMedium_true_iff in Hp.
  now apply (first_real_medium_no_sentinel p medium).
Qed.

Lemma GetFilterByMedium_sentinel_target_witness :
  is_sentinel medium_null /\
  GetFilterByMedium (S_OK, Some sample_deviceEnum)
    CLSID_AudioInputDeviceCategory medium_null None = Some (false, None) /\
  (false, @None IBaseFilter) = (false, None).
Proof.
  split; [left; reflexivity|]. split; [reflexivity|].
  apply (GetFilterByMedium_sentinel_target (S_OK, Some sample_deviceEnum)
           CLSID_AudioInputDeviceCategory medium_null None
           (false, None)).
  - left. reflexivity.
  - reflexivity.
Defined.
